(** * The contact manager of [main.py]: a shallow embedding and its properties

    The development follows the source file top-down: Python strings and the
    fragment of [re] and [datetime] that the program calls, then [Field] and
    its subclasses, [Record], [AddressBook], and the handlers of [Bot].

    Conventions of the embedding.
    - A Python [str] is a [string]; its characters are the code points below
      256 (Latin-1).  On that range [\d] is ['0'..'9'], and [str.lower],
      [str.isspace] and [repr] are the functions given below.
    - [None] is [Datatypes.None]: a value that is [None] or a [str] is an
      [option string].
    - An exception is a value of [exn]; a computation that can raise returns a
      [result]. Code that mutates an object before it raises threads the
      object explicitly, so that the state left behind is visible. *)

From Stdlib Require Import ZArith NArith List Bool Lia String Ascii.
From Stdlib Require Import Numbers.DecimalString.
Import ListNotations.

Set Implicit Arguments.
Open Scope string_scope.

(** ** Exceptions and results *)

Inductive exn : Type :=
| ValueError (msg : string)
| KeyError
| AttributeError
| TypeError.

Inductive result (A : Type) : Type :=
| Ok (a : A)
| Raise (e : exn).

Arguments Ok {A} a.
Arguments Raise {A} e.

Definition rbind {A B} (r : result A) (f : A -> result B) : result B :=
  match r with
  | Ok a => f a
  | Raise e => Raise e
  end.

Definition orelse {A} (a b : option A) : option A :=
  match a with
  | Some x => Some x
  | None => b
  end.

(** ** Python strings *)

Module PyStr.

Definition LF : ascii := "010"%char.
Definition DQUOTE : ascii := "034"%char.
Definition SQUOTE : ascii := "039"%char.
Definition BACKSLASH : ascii := "092"%char.

Definition code (c : ascii) : N := N_of_ascii c.

Definition in_range (lo hi c : ascii) : bool :=
  ((code lo <=? code c) && (code c <=? code hi))%N.

Definition is_char (a c : ascii) : bool := Ascii.eqb a c.

(** [\d], [str.isdecimal]: the decimal digits below 256. *)
Definition is_decimal (c : ascii) : bool := in_range "0" "9" c.

(** [str.isspace], [\s]: the white space below 256. *)
Definition is_space (c : ascii) : bool :=
  let n := code c in
  (((9 <=? n) && (n <=? 13)) || ((28 <=? n) && (n <=? 32))
   || (n =? 133) || (n =? 160))%N.

(** [str.lower] on one character: A-Z and the Latin-1 capitals. *)
Definition lower_char (c : ascii) : ascii :=
  let n := code c in
  if (((65 <=? n) && (n <=? 90))
      || ((192 <=? n) && (n <=? 222) && negb (n =? 215)))%N
  then ascii_of_N (n + 32) else c.

Fixpoint lower (s : string) : string :=
  match s with
  | EmptyString => EmptyString
  | String c s' => String (lower_char c) (lower s')
  end.

(** [s.startswith(p)] *)
Definition startswith (s p : string) : bool := String.prefix p s.

(** [sub in s] *)
Fixpoint contains (sub s : string) : bool :=
  String.prefix sub s ||
  match s with
  | EmptyString => false
  | String _ s' => contains sub s'
  end.

(** [s[n:]] *)
Fixpoint drop (n : nat) (s : string) : string :=
  match n, s with
  | O, _ => s
  | S n', String _ s' => drop n' s'
  | S _, EmptyString => EmptyString
  end.

Fixpoint rev_onto (s acc : string) : string :=
  match s with
  | EmptyString => acc
  | String c s' => rev_onto s' (String c acc)
  end.

Definition rev (s : string) : string := rev_onto s EmptyString.

Fixpoint lstrip_by (p : ascii -> bool) (s : string) : string :=
  match s with
  | String c s' => if p c then lstrip_by p s' else s
  | EmptyString => EmptyString
  end.

Definition strip_by (p : ascii -> bool) (s : string) : string :=
  rev (lstrip_by p (rev (lstrip_by p s))).

(** [s.strip()] *)
Definition strip (s : string) : string := strip_by is_space s.

Fixpoint mem_char (c : ascii) (chars : string) : bool :=
  match chars with
  | EmptyString => false
  | String a r => Ascii.eqb c a || mem_char c r
  end.

(** [s.strip(chars)] *)
Definition strip_chars (chars s : string) : string :=
  strip_by (fun c => mem_char c chars) s.

(** [sep.join(l)] *)
Fixpoint join (sep : string) (l : list string) : string :=
  match l with
  | [] => ""
  | [x] => x
  | x :: r => x ++ sep ++ join sep r
  end.

(** [str(n)] for an [int]. *)
Definition str_of_int (z : Z) : string := NilZero.string_of_int (Z.to_int z).

(** [str(x)] inside an f-string, for [x] that is [None] or a [str]. *)
Definition str_of_opt (o : option string) : string :=
  match o with
  | Some s => s
  | None => "None"
  end.

Definition digit_value (c : ascii) : Z := Z.of_N (code c) - 48.

Fixpoint int_acc (acc : Z) (s : string) : Z :=
  match s with
  | EmptyString => acc
  | String c s' => int_acc (10 * acc + digit_value c) s'
  end.

(** [int(s)] on the strings the program passes to it: a run of decimal
    digits, possibly preceded by white space. *)
Definition int_of (s : string) : Z := int_acc 0 (lstrip_by is_space s).

End PyStr.

(** ** The fragment of [re] that the program uses

    A backtracking matcher with Python's priorities: alternatives are tried
    left to right, [*] and [+] take as much as they can and give back,
    [*?] takes as little as it can.  [$] holds at the end of the string and
    also just before a line feed that ends the string. *)

Module Re.

Import PyStr.

Inductive regex : Type :=
| Eps
| Chr (p : ascii -> bool)
| Seq (r1 r2 : regex)
| Alt (r1 r2 : regex)
| Star (r : regex)
| StarLazy (r : regex)
| Bol
| Eol
| Grp (name : string) (r : regex).

Record mstate : Type := MState {
  pos : nat;
  rest : string;
  groups : list (string * string)
}.

Definition at_eol (s : string) : bool :=
  match s with
  | EmptyString => true
  | String c EmptyString => is_char LF c
  | _ => false
  end.

Fixpoint rmatch {A : Type} (r : regex) (st : mstate)
    (k : string -> mstate -> option A) {struct r} : option A :=
  match r with
  | Eps => k "" st
  | Chr p =>
      match rest st with
      | String c s' =>
          if p c then k (String c "") (MState (S (pos st)) s' (groups st))
          else None
      | EmptyString => None
      end
  | Seq r1 r2 =>
      rmatch r1 st (fun m1 st1 =>
        rmatch r2 st1 (fun m2 st2 => k (m1 ++ m2) st2))
  | Alt r1 r2 => orelse (rmatch r1 st k) (rmatch r2 st k)
  | Star r' =>
      (fix loop (n : nat) (acc : string) (st0 : mstate) : option A :=
         match n with
         | O => k acc st0
         | S n' =>
             orelse
               (rmatch r' st0 (fun m st1 =>
                  if Nat.ltb (pos st0) (pos st1)
                  then loop n' (acc ++ m) st1 else None))
               (k acc st0)
         end) (String.length (rest st)) "" st
  | StarLazy r' =>
      (fix loop (n : nat) (acc : string) (st0 : mstate) : option A :=
         match n with
         | O => k acc st0
         | S n' =>
             orelse
               (k acc st0)
               (rmatch r' st0 (fun m st1 =>
                  if Nat.ltb (pos st0) (pos st1)
                  then loop n' (acc ++ m) st1 else None))
         end) (String.length (rest st)) "" st
  | Bol => if Nat.eqb (pos st) 0 then k "" st else None
  | Eol => if at_eol (rest st) then k "" st else None
  | Grp name r' =>
      rmatch r' st (fun m st1 =>
        k m (MState (pos st1) (rest st1) ((name, m) :: groups st1)))
  end.

(** [r+] and [r{n}] *)
Definition Plus (r : regex) : regex := Seq r (Star r).

Fixpoint Rep (n : nat) (r : regex) : regex :=
  match n with
  | O => Eps
  | S n' => Seq r (Rep n' r)
  end.

Definition Lit (c : ascii) : regex := Chr (is_char c).

(** A match object: the text matched and the state where it ended. *)
Definition match_at (r : regex) (p : nat) (s : string)
    : option (string * mstate) :=
  rmatch r (MState p s []) (fun m st => Some (m, st)).

(** [re.match(r, s)] *)
Definition re_match (r : regex) (s : string) : option (string * mstate) :=
  match_at r 0 s.

Definition matches (r : regex) (s : string) : bool :=
  match re_match r s with
  | Some _ => true
  | None => false
  end.

(** [m.groupdict()[name]] *)
Fixpoint group (name : string) (g : list (string * string)) : string :=
  match g with
  | [] => ""
  | (n, m) :: g' => if String.eqb n name then m else group name g'
  end.

(** [re.findall(r, s)] for a pattern without groups: the matches from left to
    right, each search resuming where the previous match ended. *)
Fixpoint findall_from (fuel : nat) (r : regex) (p : nat) (s : string)
    : list string :=
  match fuel with
  | O => []
  | S fuel' =>
      match match_at r p s with
      | Some (String c m, st) =>
          String c m :: findall_from fuel' r (pos st) (rest st)
      | Some (EmptyString, _) =>
          EmptyString ::
          match s with
          | String _ s' => findall_from fuel' r (S p) s'
          | EmptyString => []
          end
      | None =>
          match s with
          | String _ s' => findall_from fuel' r (S p) s'
          | EmptyString => []
          end
      end
  end.

Definition findall (r : regex) (s : string) : list string :=
  findall_from (S (String.length s)) r 0 s.

End Re.

Import PyStr Re.

(** ** [repr] of strings and lists, and [eval] on list displays

    [csv.DictWriter] writes a list field as [str(list)], which is the list
    display built from the [repr] of each element; [load_from_csv] reads it
    back with [eval].  [eval_str_list] is [eval] on the fragment of
    expressions that are list displays of plain string literals; [None]
    stands for every expression outside that fragment, whatever Python does
    with it. *)

Module PyRepr.

Definition NUL : ascii := "000"%char.
Definition TAB : ascii := "009"%char.
Definition CR : ascii := "013"%char.

(** [str.isprintable] on one character below 256. *)
Definition is_printable (c : ascii) : bool :=
  let n := code c in
  (((32 <=? n) && (n <? 127)) || ((161 <=? n) && negb (n =? 173)))%N.

Definition hex_digit (n : N) : ascii :=
  match String.get (N.to_nat n) "0123456789abcdef" with
  | Some c => c
  | None => "0"%char
  end.

Definition repr_char (quote c : ascii) : string :=
  if Ascii.eqb c quote || Ascii.eqb c BACKSLASH then
    String BACKSLASH (String c "")
  else if Ascii.eqb c TAB then String BACKSLASH "t"
  else if Ascii.eqb c LF then String BACKSLASH "n"
  else if Ascii.eqb c CR then String BACKSLASH "r"
  else if negb (is_printable c) then
    String BACKSLASH
      (String "x" (String (hex_digit (code c / 16))
                  (String (hex_digit (code c mod 16)) "")))
  else String c "".

Fixpoint repr_body (quote : ascii) (s : string) : string :=
  match s with
  | EmptyString => ""
  | String c s' => repr_char quote c ++ repr_body quote s'
  end.

(** Double quotes are used only for a string with a single quote and no
    double quote in it. *)
Definition repr_quote (s : string) : ascii :=
  if mem_char SQUOTE s && negb (mem_char DQUOTE s) then DQUOTE else SQUOTE.

(** [repr(s)] for a [str]. *)
Definition repr (s : string) : string :=
  let q := repr_quote s in
  String q (repr_body q s ++ String q "").

(** [repr(v)] for [v] that is [None] or a [str]. *)
Definition repr_val (v : option string) : string :=
  match v with
  | Some s => repr s
  | None => "None"
  end.

(** [str(l)] for a list of such values. *)
Definition str_of_list (l : list (option string)) : string :=
  "[" ++ join ", " (map repr_val l) ++ "]".

Definition hex_value (c : ascii) : option N :=
  let n := code c in
  if ((48 <=? n) && (n <=? 57))%N then Some (n - 48)%N
  else if ((97 <=? n) && (n <=? 102))%N then Some (n - 87)%N
  else if ((65 <=? n) && (n <=? 70))%N then Some (n - 55)%N
  else None.

(** The body of a string literal opened by [quote], up to the closing
    quote: the text it denotes and what follows the literal.  A line feed,
    a carriage return or a null character written as such ends the
    evaluation with an error. *)
Fixpoint eval_str_body (quote : ascii) (s : string) : option (string * string) :=
  match s with
  | EmptyString => None
  | String c s' =>
      if Ascii.eqb c quote then Some ("", s')
      else if Ascii.eqb c BACKSLASH then
        match s' with
        | String e s'' =>
            let cont (d : ascii) (r : option (string * string)) :=
              match r with
              | Some (b, t) => Some (String d b, t)
              | None => None
              end in
            if Ascii.eqb e BACKSLASH then cont BACKSLASH (eval_str_body quote s'')
            else if Ascii.eqb e SQUOTE then cont SQUOTE (eval_str_body quote s'')
            else if Ascii.eqb e DQUOTE then cont DQUOTE (eval_str_body quote s'')
            else if Ascii.eqb e "t" then cont TAB (eval_str_body quote s'')
            else if Ascii.eqb e "n" then cont LF (eval_str_body quote s'')
            else if Ascii.eqb e "r" then cont CR (eval_str_body quote s'')
            else if Ascii.eqb e "x" then
              match s'' with
              | String h (String l s3) =>
                  match hex_value h, hex_value l with
                  | Some hv, Some lv =>
                      cont (ascii_of_N (16 * hv + lv)) (eval_str_body quote s3)
                  | _, _ => None
                  end
              | _ => None
              end
            else None
        | EmptyString => None
        end
      else if Ascii.eqb c LF || Ascii.eqb c CR || Ascii.eqb c NUL then None
      else
        match eval_str_body quote s' with
        | Some (b, t) => Some (String c b, t)
        | None => None
        end
  end.

Definition skip_blanks (s : string) : string := lstrip_by (is_char " ") s.

(** One element at the head of [s]: a string literal or [None]. *)
Definition eval_atom (s : string) : option (option string * string) :=
  match s with
  | String "N" (String "o" (String "n" (String "e" s'))) => Some (None, s')
  | String q s' =>
      if Ascii.eqb q SQUOTE || Ascii.eqb q DQUOTE then
        match eval_str_body q s' with
        | Some (x, t) => Some (Some x, t)
        | None => None
        end
      else None
  | EmptyString => None
  end.

(** What may follow the closing bracket: blanks only. *)
Definition at_end (s : string) : bool := String.eqb (skip_blanks s) "".

(** The elements after the opening bracket: atoms separated by commas, up to
    the closing bracket, which ends the expression. *)
Fixpoint eval_items (fuel : nat) (s : string) : option (list (option string)) :=
  match fuel with
  | O => None
  | S fuel' =>
      match eval_atom (skip_blanks s) with
      | None => None
      | Some (x, t) =>
          match skip_blanks t with
          | String "," t' =>
              match skip_blanks t' with
              | String "]" t'' => if at_end t'' then Some [x] else None
              | _ =>
                  match eval_items fuel' t' with
                  | Some l => Some (x :: l)
                  | None => None
                  end
              end
          | String "]" t' => if at_end t' then Some [x] else None
          | _ => None
          end
      end
  end.

Definition eval_str_list (s : string) : option (list (option string)) :=
  match skip_blanks s with
  | String "[" t =>
      match skip_blanks t with
      | String "]" t' => if at_end t' then Some [] else None
      | _ => eval_items (String.length t) t
      end
  | _ => None
  end.

End PyRepr.

Import PyRepr.

(** ** The fragment of [datetime] that the program uses

    [date] with the checks of its constructor, [replace(year=...)],
    comparison, [toordinal] and subtraction, and [datetime.strptime] at the
    one format the program passes, ['%Y/%m/%d']. *)

Module Datetime.

Open Scope Z_scope.

Record date : Type := Date { year : Z; month : Z; day : Z }.

Definition MINYEAR : Z := 1.
Definition MAXYEAR : Z := 9999.

Definition _is_leap (y : Z) : bool :=
  (y mod 4 =? 0) && (negb (y mod 100 =? 0) || (y mod 400 =? 0)).

Definition _days_before_year (y : Z) : Z :=
  let y' := y - 1 in y' * 365 + y' / 4 - y' / 100 + y' / 400.

Definition _DAYS_IN_MONTH (m : Z) : Z :=
  match m with
  | 1 => 31 | 2 => 28 | 3 => 31 | 4 => 30 | 5 => 31 | 6 => 30
  | 7 => 31 | 8 => 31 | 9 => 30 | 10 => 31 | 11 => 30 | 12 => 31
  | _ => -1
  end.

Definition _DAYS_BEFORE_MONTH (m : Z) : Z :=
  match m with
  | 1 => 0 | 2 => 31 | 3 => 59 | 4 => 90 | 5 => 120 | 6 => 151
  | 7 => 181 | 8 => 212 | 9 => 243 | 10 => 273 | 11 => 304 | 12 => 334
  | _ => -1
  end.

Definition _days_in_month (y m : Z) : Z :=
  if (m =? 2) && _is_leap y then 29 else _DAYS_IN_MONTH m.

Definition _days_before_month (y m : Z) : Z :=
  _DAYS_BEFORE_MONTH m + (if (2 <? m) && _is_leap y then 1 else 0).

Definition _ymd2ord (y m d : Z) : Z :=
  _days_before_year y + _days_before_month y m + d.

Definition _check_date_fields (y m d : Z) : result unit :=
  if negb ((MINYEAR <=? y) && (y <=? MAXYEAR)) then
    Raise (ValueError ("year " ++ str_of_int y ++ " is out of range"))
  else if negb ((1 <=? m) && (m <=? 12)) then
    Raise (ValueError "month must be in 1..12")
  else if negb ((1 <=? d) && (d <=? _days_in_month y m)) then
    Raise (ValueError "day is out of range for month")
  else Ok tt.

(** [date(y, m, d)] *)
Definition date_new (y m d : Z) : result date :=
  rbind (_check_date_fields y m d) (fun _ => Ok (Date y m d)).

(** [d.replace(year=y)] *)
Definition replace_year (d : date) (y : Z) : result date :=
  date_new y (month d) (day d).

Definition toordinal (d : date) : Z := _ymd2ord (year d) (month d) (day d).

(** [a > b] *)
Definition date_gt (a b : date) : bool :=
  (year b <? year a)
  || ((year a =? year b)
      && ((month b <? month a)
          || ((month a =? month b) && (day b <? day a)))).

(** [(a - b).days] *)
Definition days_between (a b : date) : Z := toordinal a - toordinal b.

(** The pattern that [_strptime] compiles for ['%Y/%m/%d']:
    [(?P<Y>\d\d\d\d)/(?P<m>1[0-2]|0[1-9]|[1-9])/(?P<d>3[0-1]|[1-2]\d|0[1-9]|[1-9]| [1-9])].
    It is compiled with IGNORECASE, which changes nothing in a pattern without
    letters. *)
Definition regex_m : regex :=
  Alt (Seq (Lit "1") (Chr (in_range "0" "2")))
 (Alt (Seq (Lit "0") (Chr (in_range "1" "9")))
      (Chr (in_range "1" "9"))).

Definition regex_d : regex :=
  Alt (Seq (Lit "3") (Chr (in_range "0" "1")))
 (Alt (Seq (Chr (in_range "1" "2")) (Chr is_decimal))
 (Alt (Seq (Lit "0") (Chr (in_range "1" "9")))
 (Alt (Chr (in_range "1" "9"))
      (Seq (Lit " ") (Chr (in_range "1" "9")))))).

Definition regex_Ymd : regex :=
  Seq (Grp "Y" (Rep 4 (Chr is_decimal)))
 (Seq (Lit "/")
 (Seq (Grp "m" regex_m)
 (Seq (Lit "/")
      (Grp "d" regex_d)))).

(** [datetime.strptime(data_string, '%Y/%m/%d').date()] *)
Definition strptime_Ymd (data_string : string) : result date :=
  match re_match regex_Ymd data_string with
  | None =>
      Raise (ValueError ("time data " ++ repr data_string
                         ++ " does not match format '%Y/%m/%d'"))
  | Some (_, found) =>
      if negb (Nat.eqb (String.length data_string) (pos found)) then
        Raise (ValueError ("unconverted data remains: " ++ rest found))
      else
        date_new (int_of (group "Y" (groups found)))
                 (int_of (group "m" (groups found)))
                 (int_of (group "d" (groups found)))
  end.

End Datetime.

Import Datetime.

(** ** Truth values of Python objects *)

(** [bool(v)] for [v] that is [None] or a [str]. *)
Definition truthy (v : option string) : bool :=
  match v with
  | Some (String _ _) => true
  | _ => false
  end.

(** [bool(l)] for a list. *)
Definition nonempty {A} (l : list A) : bool :=
  match l with
  | [] => false
  | _ :: _ => true
  end.

(** [a == b] for values that are [None] or a [str]. *)
Definition val_eqb (a b : option string) : bool :=
  match a, b with
  | Some x, Some y => String.eqb x y
  | None, None => true
  | _, _ => false
  end.

(** ** Patterns of the program *)

(** [^\d{11}$] *)
Definition phone_re : regex :=
  Seq Bol (Seq (Rep 11 (Chr is_decimal)) Eol).

(** [^\d{4}/\d{2}/\d{2}$] *)
Definition birthday_re : regex :=
  Seq Bol
 (Seq (Rep 4 (Chr is_decimal))
 (Seq (Lit "/")
 (Seq (Rep 2 (Chr is_decimal))
 (Seq (Lit "/")
 (Seq (Rep 2 (Chr is_decimal)) Eol))))).

Definition name_char (c : ascii) : bool :=
  in_range "a" "z" c || in_range "A" "Z" c || is_char "-" c || is_char " " c.

(** [^[a-zA-Z\- ]+$] *)
Definition name_re : regex := Seq Bol (Seq (Plus (Chr name_char)) Eol).

(** [.] : any character but a line feed. *)
Definition dot (c : ascii) : bool := negb (is_char LF c).

(** The pattern of [re.findall] in [parse_input]: a span between double
    quotes, or a span between single quotes (both as short as possible), or a
    run of characters that are not white space. *)
Definition arguments_re : regex :=
  Alt (Seq (Lit DQUOTE) (Seq (StarLazy (Chr dot)) (Lit DQUOTE)))
 (Alt (Seq (Lit SQUOTE) (Seq (StarLazy (Chr dot)) (Lit SQUOTE)))
      (Plus (Chr (fun c => negb (is_space c))))).

(** ** [Field] and its subclasses

    An object of class [Field] holds one attribute, [_value].  [Field.__init__]
    stores its argument as it is; the subclasses do not override it, so
    [Name(v)], [Birthday(v)] and [Phone(v)] all construct through it. *)

Record Field : Type := mkField { _value : option string }.

Definition Field_init (value : option string) : Field := mkField value.

Definition Name (value : option string) : Field := Field_init value.
Definition Birthday (value : option string) : Field := Field_init value.
Definition Phone (value : option string) : Field := Field_init value.

(** The property [value]: the getter, and the setter of each class.  A setter
    returns what it raised, if anything, and the object as it is afterwards. *)
Definition value (self : Field) : option string := _value self.

Definition Field_value_setter (self : Field) (new_value : string)
    : result unit * Field :=
  (Ok tt, mkField (Some new_value)).

Definition birthday_error : string :=
  "Incorrect date format for 'birthday'. Use 'YYYY/MM/DD' format.".

Definition phone_error : string :=
  "Phone numbers must be 11-digit numerical strings.".

Definition Birthday_value_setter (self : Field) (new_value : string)
    : result unit * Field :=
  match strptime_Ymd new_value with
  | Ok _ => (Ok tt, mkField (Some new_value))
  | Raise (ValueError _) => (Raise (ValueError birthday_error), self)
  | Raise e => (Raise e, self)
  end.

Definition Phone_value_setter (self : Field) (new_value : string)
    : result unit * Field :=
  if negb (matches phone_re new_value) then
    (Raise (ValueError phone_error), self)
  else (Ok tt, mkField (Some new_value)).

(** ** [Record] *)

Record Record : Type := mkRecord {
  name : Field;
  birthday : option Field;
  phones : list Field
}.

(** [self.birthday = b] and [self.phones = ps] *)
Definition set_birthday (self : Record) (b : option Field) : Record :=
  mkRecord (name self) b (phones self).

Definition set_phones (self : Record) (ps : list Field) : Record :=
  mkRecord (name self) (birthday self) ps.

Definition add_phone (self : Record) (phone : option string) : Record :=
  mkRecord (name self) (birthday self) (phones self ++ [Phone phone])%list.

(** [Record(name, birthday, phones)] *)
Definition Record_init (name birthday : option string)
    (phones : list (option string)) : Record :=
  let self :=
    mkRecord (Name name)
             (if truthy birthday then Some (Birthday birthday) else None)
             [] in
  if nonempty phones then fold_left add_phone phones self else self.

Definition add_name (self : Record) (name : option string) : Record :=
  mkRecord (Name name) (birthday self) (phones self).

Definition show_name (self : Record) : option string := value (name self).

Definition edit_name (self : Record) (new_name : string)
    : result unit * Record :=
  let (r, f) := Field_value_setter (name self) new_name in
  (r, mkRecord f (birthday self) (phones self)).

Definition add_birthday (self : Record) (birthday : option string) : Record :=
  mkRecord (name self) (Some (Birthday birthday)) (phones self).

Definition show_birthday (self : Record) : option string :=
  match birthday self with
  | Some b => value b
  | None => None
  end.

Definition edit_birthday (self : Record) (new_birthday : string)
    : result unit * Record :=
  match birthday self with
  | None =>
      (Ok tt, mkRecord (name self) (Some (Birthday (Some new_birthday)))
                       (phones self))
  | Some b =>
      let (r, b') := Birthday_value_setter b new_birthday in
      (r, mkRecord (name self) (Some b') (phones self))
  end.

Definition del_birthday (self : Record) : Record :=
  mkRecord (name self) None (phones self).

Definition show_phones (self : Record) : list (option string) :=
  map value (phones self).

Fixpoint edit_phone_loop (ps : list Field) (old_phone : option string)
    (new_phone : string) : result unit * list Field :=
  match ps with
  | [] => (Ok tt, [])
  | phone :: ps' =>
      if val_eqb (value phone) old_phone then
        let (r, phone') := Phone_value_setter phone new_phone in
        (r, phone' :: ps')
      else
        let (r, ps'') := edit_phone_loop ps' old_phone new_phone in
        (r, phone :: ps'')
  end.

Definition edit_phone (self : Record) (old_phone : option string)
    (new_phone : string) : result unit * Record :=
  let (r, ps) := edit_phone_loop (phones self) old_phone new_phone in
  (r, mkRecord (name self) (birthday self) ps).

Definition delete_phone (self : Record) (phone : option string) : Record :=
  mkRecord (name self) (birthday self)
           (filter (fun p => negb (val_eqb (value p) phone)) (phones self)).

(** ** [AddressBook]

    [UserDict.data] is a [dict]: keys are unique, entries keep the order in
    which their keys were first inserted.  A key is whatever [record.name.value]
    was when the record was added, so it may be [None]. *)

Definition key : Type := option string.

Definition dict (V : Type) : Type := list (key * V).

Fixpoint dict_get {V} (k : key) (d : dict V) : option V :=
  match d with
  | [] => None
  | (k', v) :: d' => if val_eqb k k' then Some v else dict_get k d'
  end.

(** [k in d] *)
Definition dict_mem {V} (k : key) (d : dict V) : bool :=
  match dict_get k d with
  | Some _ => true
  | None => false
  end.

(** [d[k]] *)
Definition dict_getitem {V} (k : key) (d : dict V) : result V :=
  match dict_get k d with
  | Some v => Ok v
  | None => Raise KeyError
  end.

(** [d[k] = v] : a present key keeps its place, a new key goes last. *)
Fixpoint dict_set {V} (k : key) (v : V) (d : dict V) : dict V :=
  match d with
  | [] => [(k, v)]
  | (k', v') :: d' =>
      if val_eqb k k' then (k', v) :: d' else (k', v') :: dict_set k v d'
  end.

(** [del d[k]] for a present key. *)
Fixpoint dict_del {V} (k : key) (d : dict V) : dict V :=
  match d with
  | [] => []
  | (k', v') :: d' =>
      if val_eqb k k' then d' else (k', v') :: dict_del k d'
  end.

Definition dict_keys {V} (d : dict V) : list key := map fst d.

Definition AddressBook : Type := dict Record.

Definition add_record (self : AddressBook) (record : Record) : AddressBook :=
  dict_set (value (name record)) record self.

Definition delete_record (self : AddressBook) (name : key) : AddressBook :=
  if dict_mem name self then dict_del name self else self.

(** [v.lower()] for [v] that is [None] or a [str]. *)
Definition lower_of (v : option string) : result string :=
  match v with
  | Some s => Ok (lower s)
  | None => Raise AttributeError
  end.

(** The inner loop of [search_record], over the phones of one record. *)
Definition search_phones (query : option string) (name : key)
    (phones : list Field) (found_records : list key) : list key :=
  fold_left
    (fun found phone =>
       if val_eqb query (value phone) then (found ++ [name])%list else found)
    phones found_records.

(** The outer loop of [search_record], over [self.data.items()]. *)
Fixpoint search_items (query : option string) (items : list (key * Record))
    (found_records : list key) : result (list key) :=
  match items with
  | [] => Ok found_records
  | (name, record) :: items' =>
      rbind (lower_of query) (fun q =>
      rbind (lower_of name) (fun n =>
        let found1 :=
          if contains q n then (found_records ++ [name])%list
          else found_records in
        search_items query items'
          (search_phones query name (phones record) found1)))
  end.

Definition search_record (self : AddressBook) (query : option string)
    : result (list key) :=
  search_items query self [].

(** *** Rows of the CSV file

    A row is the three fields [Name], [Birthday], [Phones] as [DictWriter]
    receives them and as [DictReader] returns them; the quoting that the
    [csv] module applies between the two is not part of the model.
    [DictWriter] writes [None] as the empty string and every other value
    that is not a [str] as its [str()]. *)

Definition row : Type := (string * string * string)%type.

Definition csv_str (v : option string) : string :=
  match v with
  | Some s => s
  | None => ""
  end.

(** The row that [save_to_csv] writes for one record. *)
Definition to_row (record : Record) : row :=
  let phones_list := map value (phones record) in
  (csv_str (value (name record)),
   match birthday record with
   | Some b => csv_str (value b)
   | None => ""
   end,
   str_of_list phones_list).


(** The record that [load_from_csv] builds from one row; [None] when the
    [Phones] field is outside the fragment of [eval] modelled above. *)
Definition from_row (r : row) : option Record :=
  let '(name_field, birthday_field, phones_str) := r in
  match eval_str_list phones_str with
  | None => None
  | Some phones_list =>
      let record := Record_init (Some name_field) None [] in
      let record :=
        if truthy (Some birthday_field)
        then set_birthday record (Some (Birthday (Some birthday_field)))
        else record in
      Some (fold_left add_phone phones_list record)
  end.

Fixpoint load_from_csv (self : AddressBook) (rows : list row)
    : option AddressBook :=
  match rows with
  | [] => Some self
  | r :: rows' =>
      match from_row r with
      | Some record => load_from_csv (add_record self record) rows'
      | None => None
      end
  end.

(** ** [Bot]

    A handler runs in a world made of the address book of the bot, the text
    printed so far (one entry per call of [print], with the line end that the
    call writes) and the date that [datetime.now().date()] returns.  A handler
    that raises leaves the world as it was at that point. *)

Record World : Type := mkWorld {
  address_book : AddressBook;
  stdout : list string;
  today : date
}.

Definition M (A : Type) : Type := World -> result A * World.

Definition ret {A} (a : A) : M A := fun w => (Ok a, w).

Definition bind {A B} (m : M A) (f : A -> M B) : M B :=
  fun w =>
    match m w with
    | (Ok a, w') => f a w'
    | (Raise e, w') => (Raise e, w')
    end.

Declare Scope bot_scope.
Delimit Scope bot_scope with bot.
Notation "x <- m ;; k" := (bind m (fun x => k))
  (at level 61, m at next level, right associativity) : bot_scope.
Notation "m ;; k" := (bind m (fun _ => k))
  (at level 61, right associativity) : bot_scope.
Open Scope bot_scope.

Definition lift {A} (r : result A) : M A := fun w => (r, w).

Definition get_book : M AddressBook := fun w => (Ok (address_book w), w).

Definition set_book (b : AddressBook) : M unit :=
  fun w => (Ok tt, mkWorld b (stdout w) (today w)).

Definition get_today : M date := fun w => (Ok (today w), w).

Definition NL : string := String LF "".

Definition write (text : string) : M unit :=
  fun w =>
    (Ok tt, mkWorld (address_book w) (stdout w ++ [text])%list (today w)).

(** [print(text)] and [print(text, end='')] *)
Definition print (text : string) : M unit := write (text ++ NL).
Definition print_noend (text : string) : M unit := write text.

Definition when (b : bool) (m : M unit) : M unit := if b then m else ret tt.

Fixpoint for_each {X} (l : list X) (body : X -> M unit) : M unit :=
  match l with
  | [] => ret tt
  | x :: l' => body x ;; for_each l' body
  end.

(** A write to the record object that the book holds under [k]. *)
Definition set_record (k : key) (r : Record) : M unit :=
  b <- get_book ;; set_book (dict_set k r b).

Fixpoint enumerate {A} (start : Z) (l : list A) : list (Z * A) :=
  match l with
  | [] => []
  | x :: l' => (start, x) :: enumerate (start + 1) l'
  end.

Definition exit_commands : list string := ["q"; "quit"; "close"; "exit"].

(** The keys of [self.commands], in the order of the dict display. *)
Definition commands : list string :=
  ["help"; "hello"; "show all"; "show phones"; "show birthday";
   "days to birthday"; "add"; "change"; "delete"; "search name"].

(** *** [parse_input] *)

Definition quote_chars : string := String SQUOTE (String DQUOTE "").

(** [arg.strip(quotes) if arg[0] in quotes else arg]; [findall] returns no
    empty argument, for which [arg[0]] would raise. *)
Definition unquote (arg : string) : string :=
  match arg with
  | String c _ =>
      if mem_char c quote_chars then strip_chars quote_chars arg else arg
  | EmptyString => arg
  end.

Definition classify (acc : option string * option string * list string)
    (arg : string) : option string * option string * list string :=
  let '(parsed_name, parsed_birthday, parsed_phones) := acc in
  if matches name_re arg then (Some arg, parsed_birthday, parsed_phones)
  else if matches birthday_re arg then (parsed_name, Some arg, parsed_phones)
  else if matches phone_re arg then
    (parsed_name, parsed_birthday, (parsed_phones ++ [arg])%list)
  else acc.

Definition parse_input (input_string : string) (commands : list string)
    : option string * option string * option string * option (list string) :=
  let input_string_lower := lower input_string in
  match find (fun key => startswith input_string_lower (lower key))
             commands with
  | None => (None, None, None, None)
  | Some command =>
      let rest_of_string :=
        strip (drop (String.length command) input_string) in
      let arguments := findall arguments_re rest_of_string in
      let arguments := map unquote arguments in
      let '(parsed_name, parsed_birthday, parsed_phones) :=
        fold_left classify arguments (None, None, []) in
      (Some command, parsed_name, parsed_birthday, Some parsed_phones)
  end.

(** *** Handlers

    [main] calls every handler as [handler(name, birthday, phones)]; the
    handlers declared with [*args] read [args[0]], and their test [if args]
    holds for that tuple of three. *)

Definition handle_help (_ _ : option string) (_ : list string)
    : M (option string) :=
  print ("[+] Usage: <command> <name> <birthday/phones>" ++ NL
         ++ "[+] Available commands: ") ;;
  for_each commands print ;;
  for_each exit_commands print ;;
  ret None.

Definition handle_hello (_ _ : option string) (_ : list string)
    : M (option string) :=
  print "[+] Hi there!" ;; ret None.

(** ["; ".join] of the numbered phones of a record; [str()] of each value. *)
Definition phones_str (record : Record) : string :=
  join "; "
    (map (fun ip => "[" ++ str_of_int (fst ip + 1) ++ "] "
                    ++ str_of_opt (value (snd ip)))
         (enumerate 0 (phones record))).

(** The lines that [show_all_records] and [handle_search_name] print for one
    record after its heading. *)
Definition print_record_tail (record : Record) : M unit :=
  match birthday record with
  | Some b => print_noend (str_of_opt (value b) ++ ", ")
  | None => ret tt
  end ;;
  print_noend "Phones: " ;;
  print (phones_str record).

Definition show_all_records : M unit :=
  book <- get_book ;;
  if negb (nonempty book) then
    print "[-] No records found in the address book."
  else
    for_each (enumerate 1 book) (fun entry =>
      let '(i, (name, record)) := entry in
      print_noend (str_of_int i ++ ". " ++ str_of_opt name ++ ", ") ;;
      print_record_tail record).

Definition handle_show_all (_ _ : option string) (_ : list string)
    : M (option string) :=
  show_all_records ;; ret None.

(** [", ".join(l)] raises [TypeError] on an element that is not a [str]. *)
Fixpoint all_str (l : list (option string)) : result (list string) :=
  match l with
  | [] => Ok []
  | Some s :: l' => rbind (all_str l') (fun r => Ok (s :: r))
  | None :: _ => Raise TypeError
  end.

Definition handle_show_phones (contactname _ : option string) (_ : list string)
    : M (option string) :=
  book <- get_book ;;
  match dict_get contactname book with
  | Some record =>
      vals <- lift (all_str (map value (phones record))) ;;
      print ("[+] Phone numbers for " ++ str_of_opt contactname ++ ": "
             ++ join ", " vals)
  | None => print "[-] Record not found."
  end ;;
  ret None.

Definition handle_show_bday (contactname _ : option string) (_ : list string)
    : M (option string) :=
  book <- get_book ;;
  match dict_get contactname book with
  | Some record =>
      print ("[+] " ++ str_of_opt contactname ++ "'s birthday is: "
             ++ str_of_opt (show_birthday record))
  | None => print "[-] Record not found."
  end ;;
  ret None.

(** [datetime.strptime(v, '%Y/%m/%d')] for [v] that is [None] or a [str]. *)
Definition strptime_val (v : option string) : result date :=
  match v with
  | Some s => strptime_Ymd s
  | None => Raise TypeError
  end.

(** The computation of [days_remaining] in [handle_d2b]. *)
Definition days_remaining (birthday_value : option string) (today : date)
    : result Z :=
  rbind (strptime_val birthday_value) (fun parsed =>
  rbind (replace_year parsed (year today)) (fun next_birthday =>
  rbind (if date_gt today next_birthday
         then replace_year next_birthday (year today + 1)
         else Ok next_birthday) (fun next_birthday =>
  Ok (days_between next_birthday today)))).

Definition handle_d2b (name _ : option string) (_ : list string)
    : M (option string) :=
  when (negb (truthy name)) (print "[-] Missing contact name.") ;;
  book <- get_book ;;
  match dict_get name book with
  | Some record =>
      match birthday record with
      | Some b =>
          today <- get_today ;;
          days <- lift (days_remaining (value b) today) ;;
          print ("[+] " ++ str_of_opt name ++ "'s birthday is in "
                 ++ str_of_int days ++ " days.")
      | None =>
          print ("[-] " ++ str_of_opt name
                 ++ " does not have a birthday specified.")
      end
  | None =>
      print ("[-] Contact '" ++ str_of_opt name
             ++ "' not found in the address book.")
  end ;;
  ret None.

(** [try: datetime.strptime(b, '%Y/%m/%d') except ValueError: ...] as a test:
    [Ok true] when the call returns, [Ok false] when it raises [ValueError]. *)
Definition strptime_passes (b : option string) : result bool :=
  match strptime_val b with
  | Ok _ => Ok true
  | Raise (ValueError _) => Ok false
  | Raise e => Raise e
  end.

Definition handle_add (name birthday : option string) (phones : list string)
    : M (option string) :=
  when (negb (truthy name)) (print "[-] Missing required 'name' field.") ;;
  (if truthy birthday then
     ok <- lift (strptime_passes birthday) ;;
     when (negb ok) (print ("[-] " ++ birthday_error))
   else ret tt) ;;
  (if nonempty phones then
     for_each phones (fun phone =>
       when (negb (matches phone_re phone)) (print ("[-] " ++ phone_error)))
   else ret tt) ;;
  book <- get_book ;;
  when (dict_mem name book) (print "[-] Name already exists.") ;;
  let record := Record_init name birthday (map Some phones) in
  book <- get_book ;;
  set_book (add_record book record) ;;
  print ("[+] Contact '" ++ str_of_opt name ++ "' added successfully!") ;;
  ret None.

Definition handle_change (name birthday : option string) (phones : list string)
    : M (option string) :=
  when (negb (truthy name)) (print "[-] Missing required 'name' field.") ;;
  book <- get_book ;;
  match dict_get name book with
  | Some existing_record =>
      existing_record <-
        (if truthy birthday then
           ok <- lift (strptime_passes birthday) ;;
           if ok then
             let r := set_birthday existing_record (Some (Birthday birthday)) in
             set_record name r ;; ret r
           else
             print ("[-] " ++ birthday_error) ;; ret existing_record
         else ret existing_record) ;;
      returned <-
        (if nonempty phones then
           match find (fun phone => negb (matches phone_re phone)) phones with
           | Some _ => ret (Some ("[-] " ++ phone_error))
           | None =>
               set_record name
                 (set_phones existing_record
                    (map (fun phone => Phone (Some phone)) phones)) ;;
               ret None
           end
         else ret None) ;;
      match returned with
      | Some text => ret (Some text)
      | None =>
          print ("[+] Contact '" ++ str_of_opt name
                 ++ "' changed successfully!") ;;
          ret None
      end
  | None => print "[-] Record not found." ;; ret None
  end.

Definition handle_delete (contactname _ : option string) (_ : list string)
    : M (option string) :=
  book <- get_book ;;
  (if dict_mem contactname book then
     set_book (delete_record book contactname) ;;
     print ("[+] Deleted record for " ++ str_of_opt contactname ++ ".")
   else print "[-] Record not found.") ;;
  ret None.

Definition handle_search_name (query _ : option string) (_ : list string)
    : M (option string) :=
  book <- get_book ;;
  found_records <- lift (search_record book query) ;;
  (if nonempty found_records then
     for_each found_records (fun name =>
       book <- get_book ;;
       record <- lift (dict_getitem name book) ;;
       print_noend (str_of_opt name ++ ", ") ;;
       print_record_tail record)
   else print "[-] No matching records found.") ;;
  ret None.

(** *** One turn of the loop of [main] *)

Definition handler : Type :=
  option string -> option string -> list string -> M (option string).

(** [self.commands] *)
Definition commands_table : list (string * handler) :=
  [("help", handle_help); ("hello", handle_hello);
   ("show all", handle_show_all); ("show phones", handle_show_phones);
   ("show birthday", handle_show_bday); ("days to birthday", handle_d2b);
   ("add", handle_add); ("change", handle_change);
   ("delete", handle_delete); ("search name", handle_search_name)].

(** [bot.commands.get(command)] *)
Definition commands_get (command : option string) : option handler :=
  match command with
  | Some c =>
      match find (fun e => String.eqb (fst e) c) commands_table with
      | Some e => Some (snd e)
      | None => None
      end
  | None => None
  end.

(** The body of the loop for a line that is not an exit command. *)
Definition turn (contact_input : string) : M unit :=
  let '(command, name, birthday, phones) :=
    parse_input contact_input (map fst commands_table) in
  let handler := commands_get command in
  print ("[i] Debug: cmd: " ++ str_of_opt command ++ "; ars: "
         ++ str_of_opt name ++ ", " ++ str_of_opt birthday ++ ", "
         ++ match phones with
            | Some l => str_of_list (map Some l)
            | None => "None"
            end) ;;
  match handler with
  | Some handle =>
      result <- handle name birthday
                  (match phones with Some l => l | None => [] end) ;;
      when (truthy result) (print (str_of_opt result))
  | None => print "[-] Command not recognized. Try 'help'."
  end.

(** The run of a computation from a book, nothing printed yet. *)
Definition run {A} (m : M A) (book : AddressBook) (d : date)
    : result A * World :=
  m (mkWorld book [] d).

(** [text] was printed by a call of [print]. *)
Definition printed (text : string) (w : World) : Prop :=
  In (text ++ NL) (stdout w).

(** * Definitions used to state the properties *)

(** ** Sample books *)

Definition record_mary : Record :=
  Record_init (Some "Mary") (Some "2020/03/10") [Some "12345678901"].

Definition book_mary : AddressBook := [(Some "Mary", record_mary)].

Definition book_john : AddressBook :=
  [(Some "John",
    Record_init (Some "John") (Some "1990/01/01") [Some "12345678901"])].

Definition book_bob : AddressBook :=
  [(Some "Bob Smith",
    Record_init (Some "Bob Smith") None [Some "55512340001"])].

(** ** Worlds and strings *)

(** The world [w] with the entries [out] printed after its own. *)
Definition emit (w : World) (out : list string) : World :=
  mkWorld (address_book w) (stdout w ++ out)%list (today w).

(** The first [n] characters of [s] if they all are of the class [p], and
    what follows them. *)
Fixpoint take_class (n : nat) (p : ascii -> bool) (s : string)
    : option (string * string) :=
  match n with
  | O => Some ("", s)
  | S n' =>
      match s with
      | String c s' =>
          if p c then
            match take_class n' p s' with
            | Some (t, r) => Some (String c t, r)
            | None => None
            end
          else None
      | EmptyString => None
      end
  end.

(** Every character of [s] is of the class [p]. *)
Fixpoint all_chars (p : ascii -> bool) (s : string) : bool :=
  match s with
  | EmptyString => true
  | String c s' => p c && all_chars p s'
  end.

(** The elements of a list display, from the first element on. *)
Definition items_text (l : list (option string)) : string :=
  join ", " (map repr_val l) ++ "]".

(** ** Searches *)

(** What one entry of the book contributes to a search: its key once if the
    lowered query occurs in the lowered key, and once more for each of its
    phones that equals the query. *)
Definition entry_hits (q : string) (e : key * Record) : list key :=
  (match fst e with
   | Some n => if contains (lower q) (lower n) then [fst e] else []
   | None => []
   end
   ++ flat_map (fun phone =>
                  if val_eqb (Some q) (value phone) then [fst e] else [])
               (phones (snd e)))%list.

(** ** The change handler *)

(** The birthday passes the check of [handle_change]. *)
Definition birthday_passes (b : option string) : bool :=
  match strptime_passes b with
  | Ok true => true
  | _ => false
  end.

(** Every phone matches the pattern of phones. *)
Definition phones_pass (phones : list string) : bool :=
  forallb (matches phone_re) phones.

(** The line that [handle_change] prints at its end. *)
Definition change_text (name : option string) : string :=
  ("[+] Contact '" ++ str_of_opt name ++ "' changed successfully!") ++ NL.

(** A validation error was reported by [handle_change]: the message on the
    birthday is printed, the message on the phones is returned to [main],
    which prints it. *)
Definition reports_validation_error (res : result (option string))
    (w : World) : Prop :=
  printed ("[-] " ++ birthday_error) w
  \/ res = Ok (Some ("[-] " ++ phone_error)).

(** The record [r] with each supplied field that passes its check written,
    and the others left as they are. *)
Definition supplied_updates (r : Record) (birthday : option string)
    (phones : list string) : Record :=
  let r1 :=
    if truthy birthday && birthday_passes birthday
    then set_birthday r (Some (Birthday birthday)) else r in
  if nonempty phones && phones_pass phones
  then set_phones r1 (map (fun phone => Phone (Some phone)) phones) else r1.

(** The claim of validate-then-commit across all supplied fields, for the
    record [r] held under [name]: either no validation error is reported and
    every supplied update is committed, or the record is unchanged. *)
Definition change_all_or_nothing (book : AddressBook) (d : date) (r : Record)
    (name birthday : option string) (phones : list string) : Prop :=
  let (res, w) := run (handle_change name birthday phones) book d in
  (~ reports_validation_error res w
   /\ dict_get name (address_book w)
      = Some (supplied_updates r birthday phones))
  \/ dict_get name (address_book w) = Some r.

(** ** Calendar dates and their texts *)

(** A date that the constructor of [date] accepts. *)
Definition valid_date (d : date) : Prop :=
  _check_date_fields (year d) (month d) (day d) = Ok tt.

(** The day of the year of a month and a day, in a leap year or not. *)
Definition day_of_year (leap : bool) (m d : Z) : Z :=
  _DAYS_BEFORE_MONTH m + (if (2 <? m) && leap then 1 else 0) + d.

(** The number of days of a month, in a leap year or not. *)
Definition month_length (leap : bool) (m : Z) : Z :=
  if (m =? 2) && leap then 29 else _DAYS_IN_MONTH m.

(** A real calendar date, in the years that [date] has. *)
Definition real_date (y m d : Z) : Prop :=
  1 <= y <= 9999 /\ 1 <= m <= 12 /\ 1 <= d <= _days_in_month y m.

(** The pattern of the claim: four digits, a slash, two digits, a slash, two
    digits. *)
Definition strict_YMD (s : string) : Prop :=
  exists Y M D,
    s = Y ++ "/" ++ M ++ "/" ++ D
    /\ String.length Y = 4%nat /\ String.length M = 2%nat
    /\ String.length D = 2%nat
    /\ all_chars is_decimal Y = true /\ all_chars is_decimal M = true
    /\ all_chars is_decimal D = true.

(** One or two digits. *)
Definition short_number (t : string) : Prop :=
  all_chars is_decimal t = true
  /\ (String.length t = 1%nat \/ String.length t = 2%nat).

(** A day: one or two digits, or a blank and one digit. *)
Definition day_text (t : string) : Prop :=
  short_number t
  \/ exists c, t = String " " (String c "") /\ is_decimal c = true.

(** What [strptime] accepts at ['%Y/%m/%d']: four digits, a slash, a month
    of one or two digits, a slash, a day of one or two digits (or a blank
    and a digit), which together name a real calendar date. *)
Definition accepted_date_text (s : string) : Prop :=
  exists Y M D,
    s = Y ++ "/" ++ M ++ "/" ++ D
    /\ String.length Y = 4%nat /\ all_chars is_decimal Y = true
    /\ short_number M /\ day_text D
    /\ real_date (int_of Y) (int_of M) (int_of D).

(** ** Books as the handlers keep them *)

(** The keys of a dict are pairwise different. *)
Definition unique_keys {V} (d : dict V) : Prop := NoDup (dict_keys d).

(** Every record is held under the value of its own name. *)
Definition keyed_by_name (book : AddressBook) : Prop :=
  Forall (fun e => value (name (snd e)) = fst e) book.

Definition book_ok (book : AddressBook) : Prop :=
  unique_keys book /\ keyed_by_name book.

(** The commands whose handlers write to the book. *)
Definition writes_book (command : option string) : bool :=
  match command with
  | Some c => String.eqb c "add" || String.eqb c "change"
              || String.eqb c "delete"
  | None => false
  end.

(** A computation that leaves the book of the world as it is, whether it
    returns or raises. *)
Definition keeps_book {A} (m : M A) : Prop :=
  forall w, address_book (snd (m w)) = address_book w.

(** A computation that keeps a well-formed book well-formed, whether it
    returns or raises. *)
Definition keeps_ok {A} (m : M A) : Prop :=
  forall w, book_ok (address_book w) -> book_ok (address_book (snd (m w))).

(** A computation that returns from every world. *)
Definition returns {A} (m : M A) : Prop :=
  forall w, exists a w', m w = (Ok a, w').

(** A computation that raises nothing but exceptions in [P]. *)
Definition raises_only {A} (P : exn -> Prop) (m : M A) : Prop :=
  forall w e, fst (m w) = Raise e -> P e.

(** What a turn of the loop can raise, by the command of the line. *)
Definition turn_raises (command : option string) (e : exn) : Prop :=
  (command = Some "show phones" /\ e = TypeError)
  \/ (command = Some "days to birthday"
      /\ (e = TypeError \/ exists msg, e = ValueError msg))
  \/ (command = Some "search name" /\ e = AttributeError).

(** The loops of [Star] and [StarLazy] for a pattern of one character. *)
Fixpoint star_chr_loop {A} (p : ascii -> bool)
    (k : string -> mstate -> option A) (n : nat) (acc : string)
    (st0 : mstate) : option A :=
  match n with
  | O => k acc st0
  | S n' =>
      orelse
        (rmatch (Chr p) st0 (fun m st1 =>
           if Nat.ltb (pos st0) (pos st1)
           then star_chr_loop p k n' (acc ++ m) st1 else None))
        (k acc st0)
  end.

Fixpoint lazy_chr_loop {A} (p : ascii -> bool)
    (k : string -> mstate -> option A) (n : nat) (acc : string)
    (st0 : mstate) : option A :=
  match n with
  | O => k acc st0
  | S n' =>
      orelse
        (k acc st0)
        (rmatch (Chr p) st0 (fun m st1 =>
           if Nat.ltb (pos st0) (pos st1)
           then lazy_chr_loop p k n' (acc ++ m) st1 else None))
  end.

(** The first component of the result of [parse_input]. *)
Definition parsed_command
    (r : option string * option string * option string
         * option (list string)) : option string :=
  let '(command, _, _, _) := r in command.

(** The record most lately given for the key [k] in a list of records. *)
Fixpoint last_record (k : key) (rs : list Record) : option Record :=
  match rs with
  | [] => None
  | r :: rs' =>
      match last_record k rs' with
      | Some r' => Some r'
      | None => if val_eqb k (value (name r)) then Some r else None
      end
  end.

(** The searches that raise: a search without a query in a book that is not
    empty, and any search in a book that holds a record under [None]. *)
Definition search_raises (book : AddressBook) (query : option string)
    : Prop :=
  (query = None /\ book <> []) \/ In None (dict_keys book).

(** ** Books and rows *)

(** A record that a row can hold: its name is a [str] and its birthday, if
    it has one, is not empty. *)
Definition storable (r : Record) : Prop :=
  (exists n, value (name r) = Some n)
  /\ (forall b, birthday r = Some b -> truthy (value b) = true).

(** The records of the rows of a file, when every row can be read. *)
Fixpoint records_of (rows : list row) : option (list Record) :=
  match rows with
  | [] => Some []
  | r :: rows' =>
      match from_row r, records_of rows' with
      | Some record, Some l => Some (record :: l)
      | _, _ => None
      end
  end.

(** ** The arguments of a line *)

(** The last element of [l] that the pattern [r] matches, or [start]. *)
Definition last_match (r : regex) (l : list string) (start : option string)
    : option string :=
  fold_left (fun acc arg => if matches r arg then Some arg else acc) l start.

(** The arguments that [parse_input] classifies for the command [command]:
    the spans that [findall] returns on what follows the command, without
    their quotes. *)
Definition arguments_of (input_string command : string) : list string :=
  map unquote
    (findall arguments_re
       (strip (drop (String.length command) input_string))).

(** ** The values that the handlers store *)

(** A record as the handlers build it: its birthday, if it has one, is a
    string that is not empty, and each of its phones is a string. *)
Definition well_valued (r : Record) : Prop :=
  (forall b, birthday r = Some b -> truthy (value b) = true)
  /\ Forall (fun p => exists s, value p = Some s) (phones r).

Definition all_well_valued (book : AddressBook) : Prop :=
  Forall (fun e => well_valued (snd e)) book.

(** A computation that keeps the property [I] of the book, whether it
    returns or raises. *)
Definition keeps_inv (I : AddressBook -> Prop) {A} (m : M A) : Prop :=
  forall w, I (address_book w) -> I (address_book (snd (m w))).

(** ** The row as the csv reader returns it *)

(** [csv.field_size_limit()] *)
Definition field_size_limit : N := 131072.

Definition within_limit (field : string) : bool :=
  (N.of_nat (String.length field) <=? field_size_limit)%N.

Definition row_within_limit (r : row) : bool :=
  let '(name_field, birthday_field, phones_str) := r in
  within_limit name_field && within_limit birthday_field
  && within_limit phones_str.

(** What [DictReader] returns for the row that [DictWriter] wrote from the
    fields [r]: the fields themselves, unless one of them is longer than the
    limit, on which the reader raises [csv.Error] ([None] here).  The
    quoting that the writer applies and the reader removes is not part of
    the model. *)
Definition DictReader_row (r : row) : option row :=
  if row_within_limit r then Some r else None.

(** The record that [load_from_csv] builds from the row written from the
    fields [r]. *)
Definition load_row (r : row) : option Record :=
  match DictReader_row r with
  | Some fields => from_row fields
  | None => None
  end.

(** * Properties *)

(** ** Equality of values and lookups in a dict *)

Lemma val_eqb_spec (a b : option string) : reflect (a = b) (val_eqb a b).
Proof.
  destruct a as [x|], b as [y|]; simpl; try (constructor; congruence).
  destruct (String.eqb_spec x y); constructor; congruence.
Qed.

Lemma val_eqb_refl (a : option string) : val_eqb a a = true.
Proof. destruct (val_eqb_spec a a); congruence. Qed.

Lemma dict_get_set_same {V} (k : key) (v : V) (d : dict V) :
  dict_get k (dict_set k v d) = Some v.
Proof.
  induction d as [|[k' v'] d IH]; simpl.
  - now rewrite val_eqb_refl.
  - destruct (val_eqb k k') eqn:E; simpl; now rewrite E.
Qed.

Lemma dict_get_set_other {V} (k k0 : key) (v : V) (d : dict V) :
  k0 <> k -> dict_get k0 (dict_set k v d) = dict_get k0 d.
Proof.
  intros Hne. induction d as [|[k' v'] d IH]; simpl.
  - destruct (val_eqb_spec k0 k); congruence.
  - destruct (val_eqb_spec k k') as [->|]; simpl.
    + destruct (val_eqb_spec k0 k'); congruence.
    + now rewrite IH.
Qed.

Lemma dict_keys_set_present {V} (k : key) (v : V) (d : dict V) :
  dict_mem k d = true -> dict_keys (dict_set k v d) = dict_keys d.
Proof.
  unfold dict_mem, dict_keys. induction d as [|[k' v'] d IH]; simpl.
  - discriminate.
  - destruct (val_eqb k k'); simpl; intros H.
    + reflexivity.
    + now rewrite IH.
Qed.

Lemma dict_set_set {V} (k : key) (v1 v2 : V) (d : dict V) :
  dict_set k v2 (dict_set k v1 d) = dict_set k v2 d.
Proof.
  induction d as [|[k' v'] d IH]; simpl.
  - now rewrite val_eqb_refl.
  - destruct (val_eqb k k') eqn:E; simpl; rewrite E; congruence.
Qed.

Lemma dict_set_get_same {V} (k : key) (v : V) (d : dict V) :
  dict_get k d = Some v -> dict_set k v d = d.
Proof.
  induction d as [|[k' v'] d IH]; simpl.
  - discriminate.
  - destruct (val_eqb k k'); intros H.
    + congruence.
    + now rewrite IH.
Qed.

Lemma dict_get_In {V} (k : key) (v : V) (d : dict V) :
  dict_get k d = Some v -> In (k, v) d.
Proof.
  induction d as [|[k' v'] d IH]; simpl.
  - discriminate.
  - destruct (val_eqb_spec k k') as [->|]; intros H.
    + left. congruence.
    + right. auto.
Qed.

Lemma dict_mem_In {V} (k : key) (d : dict V) :
  dict_mem k d = true <-> In k (dict_keys d).
Proof.
  unfold dict_mem, dict_keys. induction d as [|[k' v'] d IH]; simpl.
  - split; [discriminate | tauto].
  - destruct (val_eqb_spec k k') as [->|Hne].
    + split; auto.
    + rewrite IH. split; [auto | intros [H|H]; congruence].
Qed.

(** ** The world after a sequence of prints *)

Lemma emit_nil (w : World) : emit w [] = w.
Proof. unfold emit. rewrite app_nil_r. now destruct w. Qed.

Lemma emit_emit (w : World) (o1 o2 : list string) :
  emit (emit w o1) o2 = emit w (o1 ++ o2)%list.
Proof. unfold emit. simpl. now rewrite app_assoc. Qed.

Lemma write_emit (text : string) (w : World) :
  write text w = (Ok tt, emit w [text]).
Proof. reflexivity. Qed.

Lemma for_each_print_book (f : string -> bool) (text : string)
    (l : list string) (w : World) :
  exists out,
    for_each l (fun x => when (f x) (print text)) w = (Ok tt, emit w out)
    /\ forall t, In t out -> t = text ++ NL.
Proof.
  revert w. induction l as [|x l IH]; intros w; simpl.
  - exists []. rewrite emit_nil. split; [reflexivity | simpl; tauto].
  - unfold bind at 1. destruct (f x); unfold when.
    + unfold print at 1. rewrite write_emit.
      destruct (IH (emit w [text ++ NL])) as [out [E Hout]].
      exists ((text ++ NL) :: out). unfold when in E. rewrite E, emit_emit.
      split; [reflexivity|]. intros t [<-|Ht]; auto.
    + unfold ret at 1. destruct (IH w) as [out [E Hout]]. exists out. auto.
Qed.

Lemma strptime_passes_total (s : string) :
  exists ok, strptime_passes (Some s) = Ok ok.
Proof.
  unfold strptime_passes, strptime_val, strptime_Ymd.
  destruct (re_match regex_Ymd s) as [[m found]|]; [|eexists; reflexivity].
  destruct (negb _); [eexists; reflexivity|].
  unfold date_new, _check_date_fields, rbind.
  repeat (destruct (negb _); [eexists; reflexivity|]).
  eexists; reflexivity.
Qed.

Lemma truthy_Some (v : option string) :
  truthy v = true -> exists s, v = Some s.
Proof. destruct v as [s|]; [eauto | discriminate]. Qed.

(** ** [handle_add] *)

(** Whatever it reports, [handle_add] ends by storing a fresh record under
    [name]: none of its checks stops it. *)
Lemma handle_add_always_adds (name birthday : option string)
    (phones : list string) (w : World) :
  exists out,
    handle_add name birthday phones w
    = (Ok None,
       mkWorld (add_record (address_book w)
                  (Record_init name birthday (map Some phones)))
               (stdout w ++ out)%list (today w))
    /\ (dict_mem name (address_book w) = true ->
        In ("[-] Name already exists." ++ NL) out).
Proof.
  unfold handle_add.
  set (P1 := when (negb (truthy name)) _).
  assert (H1 : exists o1, P1 w = (Ok tt, emit w o1)).
  { unfold P1, when, print, ret. destruct (negb (truthy name)).
    - eexists; apply write_emit.
    - exists []. now rewrite emit_nil. }
  destruct H1 as [o1 E1].
  set (P2 := if truthy birthday then _ else ret tt).
  assert (H2 : exists o2, P2 (emit w o1) = (Ok tt, emit w (o1 ++ o2)%list)).
  { unfold P2. destruct (truthy birthday) eqn:Tb.
    - destruct (truthy_Some _ Tb) as [s ->].
      destruct (strptime_passes_total s) as [ok Eok].
      unfold bind, lift. rewrite Eok. unfold when, print, ret.
      destruct (negb ok).
      + eexists. rewrite write_emit, emit_emit. reflexivity.
      + exists []. now rewrite app_nil_r.
    - exists []. unfold ret. now rewrite app_nil_r. }
  destruct H2 as [o2 E2].
  set (P3 := if nonempty phones then _ else ret tt).
  assert (H3 : exists o3, P3 (emit w (o1 ++ o2)%list)
                          = (Ok tt, emit w ((o1 ++ o2) ++ o3)%list)).
  { unfold P3. destruct (nonempty phones).
    - destruct (for_each_print_book
                  (fun phone => negb (matches phone_re phone))
                  ("[-] " ++ phone_error) phones (emit w (o1 ++ o2)%list))
        as [o3 [E3 _]].
      exists o3. rewrite E3, emit_emit. reflexivity.
    - exists []. unfold ret. now rewrite app_nil_r. }
  destruct H3 as [o3 E3].
  unfold bind at 1. rewrite E1.
  unfold bind at 1. rewrite E2.
  unfold bind at 1. rewrite E3.
  unfold bind, get_book, set_book, when, print, write, ret, emit. simpl.
  destruct (dict_mem name (address_book w)) eqn:Hm; simpl.
  - eexists. split.
    + rewrite <- !app_assoc. reflexivity.
    + intros _. rewrite !in_app_iff. simpl. tauto.
  - eexists. split.
    + rewrite <- !app_assoc. reflexivity.
    + discriminate.
Qed.

(** C1 (the code departs from the claim): with "John" already a key,
    [handle_add] reports that the name exists and then stores the new record
    in place of the old one and reports success; the record that was under
    "John" is gone.  The line "add John" leads to this call. *)
Theorem handle_add_duplicate_overwrites :
  let w := snd (run (handle_add (Some "John") None []) book_john
                    (Date 2025 3 11)) in
  parse_input "add John" commands = (Some "add", Some "John", None, Some [])
  /\ dict_mem (Some "John") book_john = true
  /\ printed "[-] Name already exists." w
  /\ printed "[+] Contact 'John' added successfully!" w
  /\ dict_get (Some "John") (address_book w)
     = Some (Record_init (Some "John") None [])
  /\ dict_get (Some "John") (address_book w)
     <> dict_get (Some "John") book_john.
Proof.
  vm_compute. repeat split; auto. discriminate.
Qed.

(** ** [Record.__init__] and [add_phone] *)

Lemma fold_add_phone (ps : list (option string)) (r : Record) :
  fold_left add_phone ps r
  = mkRecord (name r) (birthday r) (phones r ++ map Phone ps)%list.
Proof.
  revert r. induction ps as [|p ps IH]; intros r; simpl.
  - rewrite app_nil_r. now destruct r.
  - rewrite IH. simpl. now rewrite <- app_assoc.
Qed.

(** The constructor stores every phone it is given, as it is given. *)
Lemma Record_init_stores (n b : option string) (ps : list (option string)) :
  Record_init n b ps
  = mkRecord (mkField n) (if truthy b then Some (mkField b) else None)
             (map mkField ps).
Proof.
  unfold Record_init. destruct ps as [|p ps]; simpl; [reflexivity|].
  now rewrite fold_add_phone.
Qed.

(** C2 (the code departs from the claim): [Record("John", "2024/02/30",
    ["123"])] returns a record that holds the birthday "2024/02/30" and the
    phone "123", and [add_phone("123")] appends "123"; both values are
    rejected by the setters of [Birthday] and [Phone], which the
    constructors never call.  The line "add John 2024/02/30" stores such a
    record in the book. *)
Theorem Record_init_stores_invalid_fields :
  Record_init (Some "John") (Some "2024/02/30") [Some "123"]
  = mkRecord (mkField (Some "John")) (Some (mkField (Some "2024/02/30")))
             [mkField (Some "123")]
  /\ show_phones (add_phone (Record_init (Some "John") None []) (Some "123"))
     = [Some "123"]
  /\ fst (Birthday_value_setter (Birthday None) "2024/02/30")
     = Raise (ValueError birthday_error)
  /\ fst (Phone_value_setter (Phone None) "123")
     = Raise (ValueError phone_error)
  /\ address_book (snd (run (turn "add John 2024/02/30") [] (Date 2025 3 11)))
     = [(Some "John",
         mkRecord (mkField (Some "John"))
                  (Some (mkField (Some "2024/02/30"))) [])].
Proof. vm_compute. repeat split. Qed.

(** ** Facts on characters *)

Lemma code_inj (a b : ascii) : code a = code b -> a = b.
Proof.
  unfold code. intros H.
  rewrite <- (ascii_N_embedding a), <- (ascii_N_embedding b). now rewrite H.
Qed.

Lemma is_char_true (a c : ascii) : is_char a c = true -> c = a.
Proof. unfold is_char. intros H. apply Ascii.eqb_eq in H. congruence. Qed.

Lemma is_char_false (a c : ascii) : is_char a c = false -> code c <> code a.
Proof.
  unfold is_char. intros H E. apply code_inj in E. subst.
  now rewrite Ascii.eqb_refl in H.
Qed.

Lemma in_range_true (lo hi c : ascii) :
  in_range lo hi c = true <-> (code lo <= code c <= code hi)%N.
Proof.
  unfold in_range. rewrite andb_true_iff, !N.leb_le. tauto.
Qed.

Lemma in_range_false (lo hi c : ascii) :
  in_range lo hi c = false <-> (code c < code lo \/ code hi < code c)%N.
Proof.
  unfold in_range. rewrite andb_false_iff, !N.leb_gt. tauto.
Qed.

Lemma append_empty_r (s : string) : s ++ "" = s.
Proof. induction s; simpl; congruence. Qed.

Lemma length_append (s t : string) :
  String.length (s ++ t) = (String.length s + String.length t)%nat.
Proof. induction s; simpl; congruence. Qed.

Lemma append_inj_l (t t' r r' : string) :
  String.length t = String.length t' -> t ++ r = t' ++ r' -> t = t' /\ r = r'.
Proof.
  revert t'. induction t as [|a t IH]; intros [|a' t']; simpl;
    intros Hl E; try discriminate.
  - auto.
  - injection E as -> E. injection Hl as Hl.
    destruct (IH t' Hl E) as [-> ->]. auto.
Qed.

(** ** The matcher on a run of [n] characters of one class *)

Lemma take_class_spec (n : nat) (p : ascii -> bool) (s t r : string) :
  take_class n p s = Some (t, r)
  <-> s = t ++ r /\ String.length t = n /\ all_chars p t = true.
Proof.
  revert s t r. induction n as [|n IH]; intros s t r; simpl.
  - split.
    + intros H. injection H as <- <-. auto.
    + intros (-> & Hl & _). destruct t; [reflexivity | discriminate].
  - destruct s as [|c s].
    + split; [discriminate|]. intros (E & Hl & _).
      destruct t; [discriminate | discriminate].
    + destruct (p c) eqn:Hc.
      * destruct (take_class n p s) as [[t' r']|] eqn:Ht.
        -- apply IH in Ht. destruct Ht as (-> & Hl & Ha). split.
           ++ intros H. injection H as <- <-. simpl. rewrite Hc, Ha, Hl. auto.
           ++ intros (E & Hl' & Ha'). destruct t as [|c' t]; [discriminate|].
              simpl in E, Hl', Ha'. injection E as <- E.
              apply andb_true_iff in Ha' as [_ Ha'].
              assert (Ht : take_class n p (t' ++ r') = Some (t, r)).
              { apply IH. auto. }
              assert (Ht' : take_class n p (t' ++ r') = Some (t', r')).
              { apply IH. auto. }
              congruence.
        -- split; [discriminate|]. intros (E & Hl' & Ha').
           destruct t as [|c' t]; [discriminate|].
           simpl in E, Hl', Ha'. injection E as <- E.
           apply andb_true_iff in Ha' as [_ Ha'].
           assert (Ht' : take_class n p s = Some (t, r)).
           { apply IH. auto. }
           congruence.
      * split; [discriminate|]. intros (E & Hl' & Ha').
        destruct t as [|c' t]; [discriminate|].
        simpl in E, Ha'. injection E as <- E. rewrite Hc in Ha'. discriminate.
Qed.

Lemma take_class_append (n : nat) (p : ascii -> bool) (t r : string) :
  String.length t = n -> all_chars p t = true ->
  take_class n p (t ++ r) = Some (t, r).
Proof. intros Hl Ha. apply take_class_spec. auto. Qed.

(** ** The matcher, one node of the pattern at a time *)

Section Matcher.

Context {A : Type}.
Implicit Types (k : string -> mstate -> option A) (st : mstate).

Lemma rmatch_Seq (r1 r2 : regex) st k :
  rmatch (Seq r1 r2) st k
  = rmatch r1 st (fun m1 st1 =>
      rmatch r2 st1 (fun m2 st2 => k (m1 ++ m2)%string st2)).
Proof. reflexivity. Qed.

Lemma rmatch_Grp (name : string) (r : regex) st k :
  rmatch (Grp name r) st k
  = rmatch r st (fun m st1 =>
      k m (MState (pos st1) (rest st1) ((name, m) :: groups st1))).
Proof. reflexivity. Qed.

Lemma rmatch_Eps st k :
  rmatch Eps st k = k "" st.
Proof. reflexivity. Qed.

Lemma rmatch_Chr_inv (p : ascii -> bool) st k (x : A) :
  rmatch (Chr p) st k = Some x ->
  exists c s',
    rest st = String c s' /\ p c = true
    /\ k (String c "") (MState (S (pos st)) s' (groups st)) = Some x.
Proof.
  simpl. destruct (rest st) as [|c s']; [discriminate|].
  destruct (p c) eqn:E; [|discriminate]. eauto.
Qed.

Lemma rmatch_Alt_inv (r1 r2 : regex) st k (x : A) :
  rmatch (Alt r1 r2) st k = Some x ->
  rmatch r1 st k = Some x \/ rmatch r2 st k = Some x.
Proof.
  simpl. destruct (rmatch r1 st k); simpl; auto.
Qed.

Lemma rmatch_Chr_cons (p : ascii -> bool) (n : nat) (c : ascii)
    (s : string) (g : list (string * string)) k :
  rmatch (Chr p) (MState n (String c s) g) k
  = if p c then k (String c "") (MState (S n) s g) else None.
Proof. reflexivity. Qed.

Lemma rmatch_Chr_nil (p : ascii -> bool) (n : nat)
    (g : list (string * string)) k :
  rmatch (Chr p) (MState n "" g) k = None.
Proof. reflexivity. Qed.

Lemma rmatch_Alt (r1 r2 : regex) st k :
  rmatch (Alt r1 r2) st k = orelse (rmatch r1 st k) (rmatch r2 st k).
Proof. reflexivity. Qed.

Lemma rmatch_Rep_Chr (n : nat) (p : ascii -> bool) st k :
  rmatch (Rep n (Chr p)) st k
  = match take_class n p (rest st) with
    | Some (t, r) => k t (MState (pos st + n) r (groups st))
    | None => None
    end.
Proof.
  revert st k. induction n as [|n IH]; intros st k; simpl.
  - rewrite Nat.add_0_r. now destruct st.
  - destruct (rest st) as [|c s]; [reflexivity|].
    destruct (p c); [|reflexivity].
    rewrite IH. simpl. destruct (take_class n p s) as [[t r]|]; [|reflexivity].
    now rewrite Nat.add_succ_r.
Qed.

End Matcher.

(** Follow a successful match in [H] through one node of the pattern. *)
Ltac match_inv H :=
  lazymatch type of H with
  | rmatch (Seq _ _) _ _ = Some _ => rewrite rmatch_Seq in H
  | rmatch (Grp _ _) _ _ = Some _ => rewrite rmatch_Grp in H
  | rmatch Eps _ _ = Some _ => rewrite rmatch_Eps in H
  | rmatch (Alt _ _) _ _ = Some _ =>
      apply rmatch_Alt_inv in H; destruct H as [H|H]
  | rmatch (Chr _) _ _ = Some _ =>
      let c := fresh "c" in
      let s' := fresh "s" in
      let Hr := fresh "Hr" in
      let Hc := fresh "Hc" in
      apply rmatch_Chr_inv in H;
      destruct H as (c & s' & Hr & Hc & H);
      cbn [rest pos groups] in Hr, H; subst
  end.

(** ** [Phone.value] *)

(** What [^\d{11}$] accepts: eleven digits, and also eleven digits followed
    by one line feed. *)
Lemma phone_re_spec (s : string) :
  matches phone_re s = true
  <-> exists t, String.length t = 11%nat /\ all_chars is_decimal t = true
                /\ (s = t \/ s = t ++ NL).
Proof.
  unfold matches, re_match, match_at, phone_re.
  change (rmatch (Seq Bol (Seq (Rep 11 (Chr is_decimal)) Eol))
            (MState 0 s []) (fun m st => Some (m, st)))
    with (rmatch (Rep 11 (Chr is_decimal)) (MState 0 s [])
            (fun m1 st1 =>
               rmatch Eol st1 (fun m2 st2 => Some ("" ++ (m1 ++ m2), st2)))).
  rewrite rmatch_Rep_Chr. simpl rest.
  destruct (take_class 11 is_decimal s) as [[t r]|] eqn:Ht.
  - apply take_class_spec in Ht. destruct Ht as (-> & Hl & Ha).
    cbn [rmatch rest]. destruct r as [|c [|c' r]]; cbn [at_eol].
    + split; [|reflexivity]. intros _. exists t.
      rewrite append_empty_r. auto.
    + destruct (is_char LF c) eqn:Hc.
      * split; [|reflexivity]. intros _. exists t.
        apply is_char_true in Hc. subst c. auto.
      * split; [discriminate|]. intros (t' & Hl' & Ha' & [E|E]).
        -- apply (f_equal String.length) in E.
           rewrite length_append in E. simpl in E. lia.
        -- exfalso. apply append_inj_l in E; [|congruence].
           destruct E as [_ E]. injection E as ->.
           vm_compute in Hc. discriminate.
    + split; [discriminate|]. intros (t' & Hl' & Ha' & [E|E]);
        apply (f_equal String.length) in E;
        rewrite !length_append in E; simpl in E; lia.
  - split; [discriminate|]. intros (t & Hl & Ha & [E|E]).
    + assert (H : take_class 11 is_decimal s = Some (t, "")).
      { apply take_class_spec. rewrite append_empty_r. auto. }
      congruence.
    + assert (H : take_class 11 is_decimal s = Some (t, NL)).
      { apply take_class_spec. auto. }
      congruence.
Qed.

(** C5 (the code departs from the claim): the setter of [Phone] accepts the
    twelve characters "12345678901" followed by a line feed, and stores
    them; [$] in [^\d{11}$] also holds before a final line feed. *)
Theorem Phone_value_setter_accepts_trailing_newline :
  let s := "12345678901" ++ NL in
  String.length s = 12%nat
  /\ matches phone_re s = true
  /\ Phone_value_setter (Phone None) s = (Ok tt, mkField (Some s)).
Proof. vm_compute. repeat split. Qed.

(** On every other string that is not eleven digits the setter raises with
    the message of the source, and leaves the object as it was. *)
Lemma Phone_value_setter_rejects (self : Field) (s : string) :
  matches phone_re s = false ->
  Phone_value_setter self s = (Raise (ValueError phone_error), self).
Proof. unfold Phone_value_setter. now intros ->. Qed.

(** ** [parse_input] *)

(** The list that [main] passes to [parse_input] is the list of the keys of
    [self.commands]. *)
Lemma commands_keys : map fst commands_table = commands.
Proof. reflexivity. Qed.

(** C9: the line "add John 1234567890 1" is parsed as the command [add] with
    the name "John", no birthday and an empty list of phones; the arguments
    "1234567890" and "1" match none of the three patterns, and the turn of the
    loop prints nothing about them. *)
Theorem parse_input_drops_unclassified :
  parse_input "add John 1234567890 1" commands
  = (Some "add", Some "John", None, Some [])
  /\ findall arguments_re "John 1234567890 1" = ["John"; "1234567890"; "1"]
  /\ (matches name_re "1234567890" || matches birthday_re "1234567890"
      || matches phone_re "1234567890") = false
  /\ (matches name_re "1" || matches birthday_re "1" || matches phone_re "1")
     = false
  /\ stdout (snd (run (turn "add John 1234567890 1") [] (Date 2025 3 11)))
     = ["[i] Debug: cmd: add; ars: John, None, []" ++ NL;
        "[+] Contact 'John' added successfully!" ++ NL].
Proof. vm_compute. repeat split. Qed.

(** ** [search_record] *)

Lemma search_phones_flat_map (query : option string) (n : key)
    (ps : list Field) (found : list key) :
  search_phones query n ps found
  = (found ++ flat_map (fun phone =>
                          if val_eqb query (value phone) then [n] else [])
                       ps)%list.
Proof.
  unfold search_phones. revert found.
  induction ps as [|p ps IH]; intros found; simpl.
  - now rewrite app_nil_r.
  - rewrite IH. destruct (val_eqb query (value p)); simpl.
    + now rewrite <- app_assoc.
    + reflexivity.
Qed.

Lemma search_items_flat_map (q : string) (items : list (key * Record))
    (found : list key) :
  Forall (fun k => k <> None) (map fst items) ->
  search_items (Some q) items found
  = Ok (found ++ flat_map (entry_hits q) items)%list.
Proof.
  revert found. induction items as [|[n r] items IH]; intros found H; simpl.
  - now rewrite app_nil_r.
  - inversion H as [|? ? Hn Hrest]; subst.
    destruct n as [n|]; [|congruence]. simpl.
    rewrite search_phones_flat_map, IH by assumption.
    unfold entry_hits. simpl.
    destruct (contains (lower q) (lower n)); simpl;
      now rewrite <- !app_assoc.
Qed.

(** A search raises nothing but [AttributeError], and what it returns are
    keys of the entries it went through. *)
Lemma search_items_keys (query : option string) (items : list (key * Record))
    (found : list key) :
  match search_items query items found with
  | Ok l => forall n, In n l -> In n found \/ In n (map fst items)
  | Raise e => e = AttributeError
  end.
Proof.
  revert found. induction items as [|[n r] items IH]; intros found; simpl.
  - auto.
  - destruct query as [q|]; simpl; [|reflexivity].
    destruct n as [n|]; simpl; [|reflexivity].
    rewrite search_phones_flat_map.
    match goal with |- context [search_items _ _ ?f] => specialize (IH f) end.
    destruct (search_items (Some q) items _) as [l|e]; [|exact IH].
    intros k Hk. destruct (IH k Hk) as [H|H]; [|auto].
    rewrite in_app_iff in H. destruct H as [H|H].
    + destruct (contains (lower q) (lower n)); [|auto].
      rewrite in_app_iff in H. simpl in H. intuition.
    + rewrite in_flat_map in H. destruct H as (p & _ & H).
      destruct (val_eqb (Some q) (value p)); simpl in H; intuition.
Qed.

Lemma print_record_tail_emit (record : Record) (w : World) :
  exists out, print_record_tail record w = (Ok tt, emit w out).
Proof.
  unfold print_record_tail, bind, print, print_noend, ret.
  destruct (birthday record); rewrite ?write_emit; simpl;
    rewrite ?emit_emit; eexists; reflexivity.
Qed.

Lemma for_each_lookup_emit (l : list key) (w : World) :
  (forall n, In n l -> dict_mem n (address_book w) = true) ->
  exists out,
    for_each l (fun name =>
      book <- get_book ;;
      record <- lift (dict_getitem name book) ;;
      print_noend (str_of_opt name ++ ", ") ;;
      print_record_tail record) w
    = (Ok tt, emit w out).
Proof.
  revert w. induction l as [|n l IH]; intros w H; simpl.
  - exists []. now rewrite emit_nil.
  - assert (Hn : dict_mem n (address_book w) = true) by (apply H; now left).
    unfold dict_mem in Hn.
    destruct (dict_get n (address_book w)) as [r|] eqn:Hr; [|discriminate].
    unfold bind at 1. unfold bind at 1. unfold get_book at 1.
    unfold bind at 1. unfold lift at 1, dict_getitem at 1.
    cbn [address_book]. rewrite Hr.
    unfold bind at 1. unfold print_noend at 1. rewrite write_emit.
    destruct (print_record_tail_emit r (emit w [str_of_opt n ++ ", "]))
      as [o1 E1].
    rewrite E1, emit_emit. cbn [app].
    destruct (IH (emit w ((str_of_opt n ++ ", ") :: o1))) as [o2 E2].
    { intros k Hk. simpl. apply H. now right. }
    rewrite E2, emit_emit. eexists; reflexivity.
Qed.

(** C10: every name that [search_record] returns is a key of the book, and
    [handle_search_name], which then looks each of them up, never raises
    [KeyError]. *)
Theorem search_results_are_keys (w : World) (query b : option string)
    (p : list string) :
  (forall found n,
      search_record (address_book w) query = Ok found ->
      In n found -> dict_mem n (address_book w) = true)
  /\ fst (handle_search_name query b p w) <> Raise KeyError.
Proof.
  pose proof (search_items_keys query (address_book w) []) as HS.
  split.
  - intros found n E Hin. unfold search_record in E. rewrite E in HS.
    apply dict_mem_In. destruct (HS n Hin) as [[]|H]. exact H.
  - unfold handle_search_name, bind at 1, get_book at 1.
    unfold bind at 1, lift at 1, search_record.
    destruct (search_items query (address_book w) []) as [found|e].
    + assert (Hk : forall n, In n found -> dict_mem n (address_book w) = true).
      { intros n Hin. apply dict_mem_In. destruct (HS n Hin) as [[]|H].
        exact H. }
      unfold bind at 1. destruct (nonempty found).
      * destruct (for_each_lookup_emit found w Hk) as [out E].
        rewrite E. simpl. discriminate.
      * simpl. discriminate.
    + simpl. subst e. discriminate.
Qed.

Lemma search_results_are_keys_witness :
  dict_mem (Some "Bob Smith") book_bob = true.
Proof.
  apply (proj1 (search_results_are_keys (mkWorld book_bob [] (Date 2025 3 11))
                  (Some "bob") None [])
           [Some "Bob Smith"] (Some "Bob Smith")).
  - reflexivity.
  - simpl. auto.
Defined.

(** C6, as stated, fails: the book holds "Bob Smith" with the phone
    "55512340001", and the search for "555" returns the empty list. *)
Lemma search_555_misses_Bob_Smith :
  (exists r, dict_get (Some "Bob Smith") book_bob = Some r
             /\ In (Some "55512340001") (show_phones r))
  /\ ~ (exists found, search_record book_bob (Some "555") = Ok found
                      /\ In (Some "Bob Smith") found).
Proof.
  split.
  - eexists. split; [reflexivity | simpl; auto].
  - intros (found & E & H). vm_compute in E. injection E as <-. destruct H.
Qed.

Lemma In_entry_hits (q : string) (k : key) (e : key * Record) :
  In k (entry_hits q e)
  <-> k = fst e
      /\ ((exists n, k = Some n /\ contains (lower q) (lower n) = true)
          \/ In (Some q) (show_phones (snd e))).
Proof.
  unfold entry_hits, show_phones. rewrite in_app_iff, in_flat_map, in_map_iff.
  destruct e as [n r]; cbn [fst snd]. split.
  - intros [H|(p & Hp & H)].
    + destruct n as [n|]; [|destruct H].
      destruct (contains (lower q) (lower n)) eqn:Hc; [|destruct H].
      destruct H as [<-|[]]. split; [reflexivity|]. left. eauto.
    + revert H. destruct (val_eqb (Some q) (value p)) eqn:E; intros H;
        [|destruct H].
      destruct H as [<-|[]]. split; [reflexivity|]. right. exists p.
      split; [|exact Hp].
      destruct (val_eqb_spec (Some q) (value p)); congruence.
  - intros [-> [(s & -> & Hc)|(p & E & Hp)]].
    + left. rewrite Hc. now left.
    + right. exists p. split; [exact Hp|].
      destruct (val_eqb_spec (Some q) (value p)); [now left | congruence].
Qed.

(** C6, amended: in a book whose keys are all strings and that holds
    "Bob Smith" with the phone "55512340001", a search returns the hits of
    the entries in insertion order; the search for the whole phone
    "55512340001" and the search for "bob" both list "Bob Smith"; the search
    for "555" lists "Bob Smith" only if some record under that name stores
    the phone "555" itself, since phones are compared by equality. *)
Theorem search_record_Bob_Smith (book : AddressBook) (r : Record) :
  Forall (fun k => k <> None) (dict_keys book) ->
  dict_get (Some "Bob Smith") book = Some r ->
  In (Some "55512340001") (show_phones r) ->
  (forall q, search_record book (Some q) = Ok (flat_map (entry_hits q) book))
  /\ (exists found, search_record book (Some "55512340001") = Ok found
                    /\ In (Some "Bob Smith") found)
  /\ (exists found, search_record book (Some "bob") = Ok found
                    /\ In (Some "Bob Smith") found)
  /\ (forall found, search_record book (Some "555") = Ok found ->
        In (Some "Bob Smith") found ->
        exists r', In (Some "Bob Smith", r') book
                   /\ In (Some "555") (show_phones r')).
Proof.
  intros Hkeys Hget Hphone.
  assert (HS : forall q, search_record book (Some q)
                         = Ok (flat_map (entry_hits q) book)).
  { intros q. unfold search_record.
    now rewrite search_items_flat_map by exact Hkeys. }
  apply dict_get_In in Hget.
  split; [exact HS|]. split; [|split].
  - eexists. split; [apply HS|]. apply in_flat_map.
    exists (Some "Bob Smith", r). split; [exact Hget|].
    apply In_entry_hits. simpl. auto.
  - eexists. split; [apply HS|]. apply in_flat_map.
    exists (Some "Bob Smith", r). split; [exact Hget|].
    apply In_entry_hits. simpl. split; [reflexivity|]. left.
    exists "Bob Smith". split; reflexivity.
  - intros found E Hin. rewrite HS in E. injection E as <-.
    apply in_flat_map in Hin. destruct Hin as ([n r'] & He & Hin).
    apply In_entry_hits in Hin. simpl in Hin.
    destruct Hin as [<- [(s & Es & Hc)|Hp]].
    + injection Es as <-. vm_compute in Hc. discriminate.
    + eauto.
Qed.

Lemma search_record_Bob_Smith_witness :
  exists found, search_record book_bob (Some "55512340001") = Ok found
                /\ In (Some "Bob Smith") found.
Proof.
  refine (proj1 (proj2 (@search_record_Bob_Smith book_bob
            (Record_init (Some "Bob Smith") None [Some "55512340001"])
            _ _ _))).
  - repeat constructor. discriminate.
  - reflexivity.
  - simpl. auto.
Defined.

(** ** [handle_change] *)

(** C3, as stated, fails.  For the line "change Mary 2024/02/30 12345678902"
    the handler reports the invalid birthday and still replaces the phones of
    the record.  Called with the valid birthday "2025/01/15" and the invalid
    phone "123", it commits the birthday and then reports the phone. *)
Lemma handle_change_partial_update :
  parse_input "change Mary 2024/02/30 12345678902" commands
  = (Some "change", Some "Mary", Some "2024/02/30", Some ["12345678902"])
  /\ dict_get (Some "Mary") book_mary = Some record_mary
  /\ ~ change_all_or_nothing book_mary (Date 2025 3 11) record_mary
         (Some "Mary") (Some "2024/02/30") ["12345678902"]
  /\ ~ change_all_or_nothing book_mary (Date 2025 3 11) record_mary
         (Some "Mary") (Some "2025/01/15") ["123"].
Proof.
  split; [vm_compute; reflexivity|]. split; [reflexivity|].
  unfold change_all_or_nothing. split.
  - assert (E : run (handle_change (Some "Mary") (Some "2024/02/30")
                       ["12345678902"]) book_mary (Date 2025 3 11)
                = (Ok None,
                   mkWorld [(Some "Mary",
                             set_phones record_mary
                               [Phone (Some "12345678902")])]
                           [("[-] " ++ birthday_error) ++ NL;
                            "[+] Contact 'Mary' changed successfully!" ++ NL]
                           (Date 2025 3 11))).
    { vm_compute. reflexivity. }
    rewrite E. intros [[Hno _]|Hsame].
    + apply Hno. left. unfold printed. simpl. auto.
    + vm_compute in Hsame. discriminate.
  - assert (E : run (handle_change (Some "Mary") (Some "2025/01/15") ["123"])
                    book_mary (Date 2025 3 11)
                = (Ok (Some ("[-] " ++ phone_error)),
                   mkWorld [(Some "Mary",
                             set_birthday record_mary
                               (Some (Birthday (Some "2025/01/15"))))]
                           [] (Date 2025 3 11))).
    { vm_compute. reflexivity. }
    rewrite E. intros [[Hno _]|Hsame].
    + apply Hno. right. reflexivity.
    + vm_compute in Hsame. discriminate.
Qed.

Lemma find_negb_forallb {A} (f : A -> bool) (l : list A) :
  match find (fun x => negb (f x)) l with
  | Some _ => forallb f l = false
  | None => forallb f l = true
  end.
Proof.
  induction l as [|x l IH]; simpl; [reflexivity|].
  destruct (f x); simpl; [exact IH | reflexivity].
Qed.

(** The run of [handle_change] on a record that exists, in closed form. *)
Lemma handle_change_run (book : AddressBook) (d : date) (r : Record)
    (name birthday : option string) (phones : list string) :
  dict_get name book = Some r ->
  let bok := truthy birthday && birthday_passes birthday in
  let r1 := if bok then set_birthday r (Some (Birthday birthday)) else r in
  let book1 := if bok then dict_set name r1 book else book in
  let out :=
    ((if truthy name then []
      else [("[-] Missing required 'name' field." ++ NL)%string])
     ++ (if truthy birthday && negb (birthday_passes birthday)
         then [(("[-] " ++ birthday_error) ++ NL)%string] else []))%list in
  run (handle_change name birthday phones) book d
  = if nonempty phones && negb (phones_pass phones)
    then (Ok (Some ("[-] " ++ phone_error)), mkWorld book1 out d)
    else (Ok None,
          mkWorld (if nonempty phones
                   then dict_set name
                          (set_phones r1
                             (map (fun phone => Phone (Some phone)) phones))
                          book1
                   else book1)
                  (out ++ [change_text name])%list d).
Proof.
  intros Hget. cbv zeta.
  unfold run, handle_change, birthday_passes, phones_pass, change_text.
  pose proof (find_negb_forallb (matches phone_re) phones) as Hfind.
  unfold bind, get_book, set_record, set_book, get_book, lift, when, print,
    write, ret.
  destruct (truthy name); cbn [negb address_book stdout today app];
    rewrite Hget;
    (destruct (truthy birthday) eqn:Tb;
     [ destruct (truthy_Some _ Tb) as [s ->];
       destruct (strptime_passes_total s) as [[] ->]
     | ]);
    cbn [negb andb address_book stdout today app];
    (destruct (nonempty phones);
     [ destruct (find _ phones); rewrite Hfind | ]);
    cbn [negb andb address_book stdout today app];
    reflexivity.
Qed.

(** Close the two conjuncts of the cases of [handle_change]: whether the
    message on the birthday is among the printed entries, and what is
    returned. *)
Ltac solve_printed :=
  unfold printed; cbn [stdout]; split;
  [ intros Hin;
    first [ now (split; reflexivity)
          | exfalso; simpl in Hin;
            repeat (destruct Hin as [Hin|Hin]; [discriminate Hin|]);
            exact Hin ]
  | intros [H1 H2]; first [discriminate H1 | discriminate H2 | simpl; auto] ].

Ltac solve_returned :=
  split; [ split;
           [ first [discriminate | now (intros _; split; reflexivity)]
           | intros [H1 H2];
             first [discriminate H1 | discriminate H2 | reflexivity] ]
         | first [left; reflexivity | right; reflexivity] ].

(** C3, amended: [handle_change] validates and commits each supplied field
    on its own.  For a record [r] held under [name], the book afterwards
    holds under [name] the record [r] with the birthday replaced if one is
    supplied and passes, and the phones replaced if some are supplied and all
    pass; no other entry and no key changes.  The message on the birthday is
    printed exactly when a birthday is supplied and fails, the message on the
    phones is returned exactly when phones are supplied and one fails. *)
Theorem handle_change_per_field (book : AddressBook) (d : date) (r : Record)
    (name birthday : option string) (phones : list string) :
  dict_get name book = Some r ->
  exists res w,
    run (handle_change name birthday phones) book d = (res, w)
    /\ address_book w
       = dict_set name (supplied_updates r birthday phones) book
    /\ dict_get name (address_book w)
       = Some (supplied_updates r birthday phones)
    /\ (forall k, k <> name -> dict_get k (address_book w) = dict_get k book)
    /\ dict_keys (address_book w) = dict_keys book
    /\ (printed ("[-] " ++ birthday_error) w
        <-> truthy birthday = true /\ birthday_passes birthday = false)
    /\ (res = Ok (Some ("[-] " ++ phone_error))
        <-> nonempty phones = true /\ phones_pass phones = false)
    /\ (res = Ok None \/ res = Ok (Some ("[-] " ++ phone_error))).
Proof.
  intros Hget.
  pose proof (@handle_change_run book d r name birthday phones Hget) as E.
  cbv zeta in E.
  assert (Hset : forall w : World,
    address_book w = dict_set name (supplied_updates r birthday phones) book ->
    dict_get name (address_book w) = Some (supplied_updates r birthday phones)
    /\ (forall k, k <> name -> dict_get k (address_book w) = dict_get k book)
    /\ dict_keys (address_book w) = dict_keys book).
  { intros w ->. split; [apply dict_get_set_same|]. split.
    - intros k Hk. now apply dict_get_set_other.
    - apply dict_keys_set_present. unfold dict_mem. now rewrite Hget. }
  assert (Hmain : exists res w,
    run (handle_change name birthday phones) book d = (res, w)
    /\ address_book w
       = dict_set name (supplied_updates r birthday phones) book
    /\ (printed ("[-] " ++ birthday_error) w
        <-> truthy birthday = true /\ birthday_passes birthday = false)
    /\ (res = Ok (Some ("[-] " ++ phone_error))
        <-> nonempty phones = true /\ phones_pass phones = false)
    /\ (res = Ok None \/ res = Ok (Some ("[-] " ++ phone_error)))).
  { unfold supplied_updates.
    destruct (truthy name), (truthy birthday), (birthday_passes birthday),
             (nonempty phones), (phones_pass phones);
      cbn [negb andb app] in E |- *;
      do 2 eexists; (split; [exact E|]); cbn [address_book];
      rewrite ?dict_set_set;
      (split; [first [reflexivity | symmetry; now apply dict_set_get_same]|]);
      (split; [solve_printed | solve_returned]). }
  destruct Hmain as (res & w & Hrun & Hb & Hp1 & Hp2 & Hp3).
  exists res, w. destruct (Hset w Hb) as (H1 & H2 & H3).
  split; [exact Hrun|]. split; [exact Hb|]. split; [exact H1|].
  split; [exact H2|]. split; [exact H3|]. split; [exact Hp1|].
  split; [exact Hp2 | exact Hp3].
Qed.

Lemma handle_change_per_field_witness :
  exists res w,
    run (handle_change (Some "Mary") (Some "2025/01/15") ["12345678902"])
        book_mary (Date 2025 3 11) = (res, w)
    /\ dict_get (Some "Mary") (address_book w)
       = Some (supplied_updates record_mary (Some "2025/01/15")
                 ["12345678902"]).
Proof.
  destruct (@handle_change_per_field book_mary (Date 2025 3 11) record_mary
              (Some "Mary") (Some "2025/01/15") ["12345678902"])
    as (res & w & E & _ & H & _).
  - reflexivity.
  - exists res, w. split; [exact E | exact H].
Defined.

(** ** Dates *)

Open Scope Z_scope.

Lemma check_date_fields_ok (y m d : Z) :
  _check_date_fields y m d = Ok tt
  <-> 1 <= y <= 9999 /\ 1 <= m <= 12 /\ 1 <= d <= _days_in_month y m.
Proof.
  unfold _check_date_fields, MINYEAR, MAXYEAR.
  destruct (Z.leb_spec 1 y), (Z.leb_spec y 9999); simpl;
    try (split; [discriminate | lia]).
  destruct (Z.leb_spec 1 m), (Z.leb_spec m 12); simpl;
    try (split; [discriminate | lia]).
  destruct (Z.leb_spec 1 d), (Z.leb_spec d (_days_in_month y m)); simpl;
    try (split; [discriminate | lia]).
  split; [lia | reflexivity].
Qed.

Lemma date_new_ok (y m d : Z) (x : date) :
  date_new y m d = Ok x <-> x = Date y m d /\ valid_date (Date y m d).
Proof.
  unfold date_new, valid_date. simpl.
  destruct (_check_date_fields y m d) as [[]|e]; simpl.
  - split; [intros H; injection H as <-; auto | intros [-> _]; reflexivity].
  - split; [discriminate | intros [_ H]; discriminate].
Qed.

Lemma month_cases (m : Z) :
  1 <= m <= 12 ->
  m = 1 \/ m = 2 \/ m = 3 \/ m = 4 \/ m = 5 \/ m = 6 \/ m = 7 \/ m = 8
  \/ m = 9 \/ m = 10 \/ m = 11 \/ m = 12.
Proof. lia. Qed.

Ltac split_month m H :=
  let C := fresh "C" in
  pose proof (@month_cases m H) as C;
  repeat (destruct C as [C|C]; [subst m|]); [..|subst m].

Ltac calendar :=
  cbv [_DAYS_BEFORE_MONTH _DAYS_IN_MONTH Z.ltb Z.eqb Pos.eqb Z.compare Pos.compare
       Pos.compare_cont andb].

Lemma ymd2ord_day_of_year (y m d : Z) :
  _ymd2ord y m d = _days_before_year y + day_of_year (_is_leap y) m d.
Proof. unfold _ymd2ord, _days_before_month, day_of_year. lia. Qed.

Lemma days_in_month_length (y m : Z) :
  _days_in_month y m = month_length (_is_leap y) m.
Proof. reflexivity. Qed.

Lemma day_of_year_bounds (leap : bool) (m d : Z) :
  1 <= m <= 12 -> 1 <= d <= month_length leap m ->
  1 <= day_of_year leap m d <= 365 + (if leap then 1 else 0).
Proof.
  intros Hm. unfold day_of_year, month_length.
  split_month m Hm; destruct leap; calendar; lia.
Qed.

Lemma day_of_year_lt (leap : bool) (m d tm td : Z) :
  1 <= m <= 12 -> 1 <= tm <= 12 ->
  1 <= d <= month_length leap m -> 1 <= td <= month_length leap tm ->
  m < tm \/ (m = tm /\ d < td) ->
  day_of_year leap m d < day_of_year leap tm td.
Proof.
  intros Hm Htm. unfold day_of_year, month_length.
  split_month m Hm; split_month tm Htm; destruct leap; calendar; lia.
Qed.

(** The same month and day one year later: the day of the year moves by at
    most the leap day. *)
Lemma day_of_year_next (l l' : bool) (m d : Z) :
  1 <= m <= 12 ->
  day_of_year l' m d
  = day_of_year l m d
    + (if (2 <? m) && l' then 1 else 0) - (if (2 <? m) && l then 1 else 0).
Proof. intros _. unfold day_of_year. lia. Qed.

Lemma days_before_year_succ (y : Z) :
  _days_before_year (y + 1)
  = _days_before_year y + 365 + (if _is_leap y then 1 else 0).
Proof.
  unfold _days_before_year, _is_leap. replace (y + 1 - 1) with y by lia.
  destruct (Z.eqb_spec (y mod 4) 0), (Z.eqb_spec (y mod 100) 0),
           (Z.eqb_spec (y mod 400) 0); simpl;
    Z.div_mod_to_equations; lia.
Qed.

Lemma leap_not_twice (y : Z) : _is_leap y = true -> _is_leap (y + 1) = false.
Proof.
  unfold _is_leap. intros H. apply andb_true_iff in H as [H _].
  apply Z.eqb_eq in H.
  destruct (Z.eqb_spec ((y + 1) mod 4) 0) as [E|]; [|reflexivity].
  exfalso. Z.div_mod_to_equations. lia.
Qed.

(** A month and a day that exist in one year exist in every year, the 29th
    of February apart. *)
Lemma month_length_any (l l' : bool) (m d : Z) :
  1 <= m <= 12 -> 1 <= d <= month_length l m -> ~ (m = 2 /\ d = 29) ->
  1 <= d <= month_length l' m.
Proof.
  intros Hm. unfold month_length.
  split_month m Hm; destruct l, l'; calendar; lia.
Qed.

Lemma date_gt_spec (a b : date) :
  date_gt a b = true
  <-> year b < year a
      \/ (year a = year b
          /\ (month b < month a \/ (month a = month b /\ day b < day a))).
Proof.
  unfold date_gt.
  rewrite orb_true_iff, andb_true_iff, orb_true_iff, andb_true_iff,
    !Z.ltb_lt, !Z.eqb_eq. tauto.
Qed.

(** ** [handle_d2b] *)

Lemma strptime_Ymd_valid (s : string) (bd : date) :
  strptime_Ymd s = Ok bd -> valid_date bd.
Proof.
  unfold strptime_Ymd.
  destruct (re_match regex_Ymd s) as [[m found]|]; [|discriminate].
  destruct (negb _); [discriminate|].
  intros H. apply date_new_ok in H. destruct H as [-> H]. exact H.
Qed.

(** C7, as stated, fails on its second example: from 2025/03/11 to
    2026/03/10 there are 364 days, not 365. *)
Lemma days_remaining_2025_03_11 :
  days_remaining (Some "2020/03/10") (Date 2025 3 11) = Ok 364
  /\ days_remaining (Some "2020/03/10") (Date 2025 3 11) <> Ok 365
  /\ stdout (snd (run (handle_d2b (Some "Mary") None []) book_mary
                      (Date 2025 3 11)))
     = ["[+] Mary's birthday is in 364 days." ++ NL].
Proof.
  assert (E : days_remaining (Some "2020/03/10") (Date 2025 3 11) = Ok 364)
    by (vm_compute; reflexivity).
  split; [exact E|]. split; [rewrite E; discriminate|].
  vm_compute. reflexivity.
Qed.

(** A birthday on the 29th of February is outside the amended claim: in a
    year without that day [replace] raises. *)
Lemma days_remaining_leap_day_raises :
  strptime_Ymd "2020/02/29" = Ok (Date 2020 2 29)
  /\ days_remaining (Some "2020/02/29") (Date 2025 3 1)
     = Raise (ValueError "day is out of range for month").
Proof. vm_compute. split; reflexivity. Qed.

(** C7, amended: for a birthday that [strptime] accepts and that is not a
    29th of February, and for every date [today] before the year 9999,
    [days_remaining] returns the number of days from [today] to the next
    date with the month and day of the birthday: that date is on or after
    [today], in the year of [today] unless that occurrence has passed and
    then in the next year, and the number is between 0 and 365;
    [handle_d2b] prints it.  For the birthday 2020/03/10 the result is 0 on
    2025/03/10 and 364 on 2025/03/11. *)
Theorem handle_d2b_days_until_birthday :
  (forall (s : string) (bd today : date),
      strptime_Ymd s = Ok bd ->
      ~ (month bd = 2 /\ day bd = 29) ->
      valid_date today ->
      year today < 9999 ->
      exists next,
        days_remaining (Some s) today = Ok (days_between next today)
        /\ valid_date next
        /\ month next = month bd /\ day next = day bd
        /\ date_gt today next = false
        /\ (year next = year today
            \/ (year next = year today + 1
                /\ date_gt today (Date (year today) (month bd) (day bd))
                   = true))
        /\ 0 <= days_between next today <= 365
        /\ forall (book : AddressBook) (name : key) (r : Record) (b : Field),
             dict_get name book = Some r ->
             birthday r = Some b ->
             value b = Some s ->
             run (handle_d2b name None []) book today
             = (Ok None,
                mkWorld book
                  ((if truthy name then []
                    else [("[-] Missing contact name." ++ NL)%string])
                   ++ [(("[+] " ++ str_of_opt name ++ "'s birthday is in "
                         ++ str_of_int (days_between next today) ++ " days.")
                        ++ NL)%string])%list
                  today))
  /\ days_remaining (Some "2020/03/10") (Date 2025 3 10) = Ok 0
  /\ days_remaining (Some "2020/03/10") (Date 2025 3 11) = Ok 364.
Proof.
  split; [|split; vm_compute; reflexivity].
  intros s bd today Hs Hleap Htoday Hmax.
  pose proof (strptime_Ymd_valid s Hs) as Hbd.
  unfold valid_date in Hbd, Htoday.
  apply check_date_fields_ok in Hbd. apply check_date_fields_ok in Htoday.
  destruct bd as [y m d], today as [ty tm td]. cbn [year month day] in *.
  rewrite !days_in_month_length in *.
  destruct Hbd as (Hy & Hm & Hd). destruct Htoday as (Hty & Htm & Htd).
  assert (Hd0 : 1 <= d <= month_length (_is_leap ty) m)
    by (eapply month_length_any; eauto).
  assert (Hd1 : 1 <= d <= month_length (_is_leap (ty + 1)) m)
    by (eapply month_length_any; eauto).
  assert (V0 : valid_date (Date ty m d)).
  { apply check_date_fields_ok. rewrite days_in_month_length. simpl. lia. }
  assert (V1 : valid_date (Date (ty + 1) m d)).
  { apply check_date_fields_ok. rewrite days_in_month_length. simpl. lia. }
  assert (R0 : replace_year (Date y m d) ty = Ok (Date ty m d)).
  { apply date_new_ok. auto. }
  assert (R1 : replace_year (Date ty m d) (ty + 1) = Ok (Date (ty + 1) m d)).
  { apply date_new_ok. auto. }
  set (next := if date_gt (Date ty tm td) (Date ty m d)
               then Date (ty + 1) m d else Date ty m d).
  assert (HD : days_remaining (Some s) (Date ty tm td)
               = Ok (days_between next (Date ty tm td))).
  { unfold days_remaining, strptime_val. rewrite Hs. cbn [rbind year].
    rewrite R0. cbn [rbind]. unfold next.
    destruct (date_gt (Date ty tm td) (Date ty m d)).
    - rewrite R1. reflexivity.
    - reflexivity. }
  assert (HN : valid_date next /\ month next = m /\ day next = d
               /\ date_gt (Date ty tm td) next = false
               /\ (year next = ty
                   \/ (year next = ty + 1
                       /\ date_gt (Date ty tm td) (Date ty m d) = true))
               /\ 0 <= days_between next (Date ty tm td) <= 365).
  { unfold next, days_between, toordinal.
    destruct (date_gt (Date ty tm td) (Date ty m d)) eqn:G;
      cbn [year month day]; rewrite !ymd2ord_day_of_year.
    - apply date_gt_spec in G. cbn [year month day] in G.
      assert (G' : m < tm \/ m = tm /\ d < td) by lia.
      pose proof (day_of_year_lt (_is_leap ty) Hm Htm Hd0 Htd G') as L.
      pose proof (day_of_year_bounds (_is_leap ty) Htm Htd) as B.
      pose proof (day_of_year_bounds (_is_leap (ty + 1)) Hm Hd1) as B1.
      pose proof (day_of_year_next (_is_leap ty) (_is_leap (ty + 1)) d Hm)
        as Nx.
      pose proof (@leap_not_twice ty) as LL.
      rewrite days_before_year_succ.
      split; [exact V1|]. split; [reflexivity|]. split; [reflexivity|].
      split; [|split].
      + destruct (date_gt (Date ty tm td) (Date (ty + 1) m d)) eqn:G2;
          [|reflexivity].
        apply date_gt_spec in G2. cbn [year month day] in G2. lia.
      + right. split; reflexivity.
      + destruct (_is_leap ty), (_is_leap (ty + 1)), (2 <? m);
          cbn [andb] in Nx; try (specialize (LL eq_refl); discriminate); lia.
    - assert (G' : ~ (m < tm \/ m = tm /\ d < td)).
      { intros G'. assert (date_gt (Date ty tm td) (Date ty m d) = true).
        { apply date_gt_spec. cbn [year month day]. lia. }
        congruence. }
      pose proof (day_of_year_bounds (_is_leap ty) Htm Htd) as B.
      pose proof (day_of_year_bounds (_is_leap ty) Hm Hd0) as B0.
      split; [exact V0|]. split; [reflexivity|]. split; [reflexivity|].
      split; [exact G|]. split; [left; reflexivity|].
      assert (C : (tm = m /\ td = d) \/ (tm < m \/ tm = m /\ td < d))
        by lia.
      destruct C as [[-> ->]|C]; [destruct (_is_leap ty); lia|].
      pose proof (day_of_year_lt (_is_leap ty) Htm Hm Htd Hd0 C).
      destruct (_is_leap ty); lia. }
  exists next. destruct HN as (N1 & N2 & N3 & N4 & N5 & N6).
  cbn [year month day].
  split; [exact HD|]. split; [exact N1|]. split; [exact N2|].
  split; [exact N3|]. split; [exact N4|]. split; [exact N5|].
  split; [exact N6|].
  intros book name r b Hget Hb Hv.
  unfold run, handle_d2b.
  assert (E0 : forall w,
    when (negb (truthy name)) (print "[-] Missing contact name.") w
    = (Ok tt, emit w (if truthy name then []
                      else ["[-] Missing contact name." ++ NL]))).
  { intros w. destruct (truthy name); simpl.
    - now rewrite emit_nil.
    - reflexivity. }
  unfold bind, get_book, get_today, lift. rewrite E0.
  cbn [address_book today emit]. rewrite Hget, Hb.
  cbn [address_book today emit]. rewrite Hv, HD.
  unfold print, ret. rewrite write_emit. unfold emit. cbn [stdout today address_book].
  rewrite app_nil_l. reflexivity.
Qed.

Lemma handle_d2b_days_until_birthday_witness :
  exists next,
    days_remaining (Some "2020/03/10") (Date 2025 3 11)
    = Ok (days_between next (Date 2025 3 11))
    /\ 0 <= days_between next (Date 2025 3 11) <= 365
    /\ stdout (snd (run (handle_d2b (Some "Mary") None []) book_mary
                        (Date 2025 3 11)))
       = [(("[+] Mary's birthday is in "
            ++ str_of_int (days_between next (Date 2025 3 11)) ++ " days.")
           ++ NL)%string].
Proof.
  destruct (proj1 handle_d2b_days_until_birthday
              "2020/03/10" (Date 2020 3 10) (Date 2025 3 11))
    as (next & H1 & _ & _ & _ & _ & _ & H2 & H3).
  - vm_compute. reflexivity.
  - simpl. intros [H _]. discriminate H.
  - vm_compute. reflexivity.
  - simpl. lia.
  - exists next. split; [exact H1|]. split; [exact H2|].
    rewrite (H3 book_mary (Some "Mary") record_mary
               (mkField (Some "2020/03/10")));
      reflexivity.
Defined.

Close Scope Z_scope.

(** ** Rows: [repr] and [eval] *)

Lemma append_assoc (a b c : string) : (a ++ b) ++ c = a ++ b ++ c.
Proof. induction a; simpl; congruence. Qed.

Lemma eval_str_body_repr_char (q c : ascii) (tail b t : string) :
  q = SQUOTE \/ q = DQUOTE ->
  eval_str_body q tail = Some (b, t) ->
  eval_str_body q (repr_char q c ++ tail) = Some (String c b, t).
Proof.
  intros [-> | ->] H;
    destruct c as [[] [] [] [] [] [] [] []];
    cbn; rewrite H; reflexivity.
Qed.

Lemma eval_str_body_repr (q : ascii) (s rest : string) :
  q = SQUOTE \/ q = DQUOTE ->
  eval_str_body q (repr_body q s ++ String q rest) = Some (s, rest).
Proof.
  intros Hq. induction s as [|c s IH]; simpl.
  - rewrite Ascii.eqb_refl. reflexivity.
  - rewrite append_assoc. now apply eval_str_body_repr_char.
Qed.

Lemma repr_quote_cases (s : string) :
  repr_quote s = SQUOTE \/ repr_quote s = DQUOTE.
Proof. unfold repr_quote. destruct (_ && _); auto. Qed.

(** The text of a value starts with a quote or with the [N] of [None]. *)
Lemma repr_val_head (v : option string) :
  exists c body, repr_val v = String c body
                 /\ (c = SQUOTE \/ c = DQUOTE \/ c = "N"%char).
Proof.
  destruct v as [s|]; simpl.
  - unfold repr. destruct (repr_quote_cases s) as [-> | ->];
      eexists; eexists; split; eauto.
  - eexists; eexists; split; eauto.
Qed.

Lemma eval_atom_repr_val (v : option string) (rest : string) :
  eval_atom (repr_val v ++ rest) = Some (v, rest).
Proof.
  destruct v as [s|]; [|reflexivity].
  unfold repr_val, repr.
  pose proof (eval_str_body_repr s rest (repr_quote_cases s)) as H.
  destruct (repr_quote_cases s) as [E | E]; rewrite E in *;
    cbn [append]; rewrite append_assoc; cbn [append];
    unfold eval_atom; cbn; rewrite H; reflexivity.
Qed.

Lemma skip_blanks_repr_val (v : option string) (rest : string) :
  skip_blanks (repr_val v ++ rest) = repr_val v ++ rest.
Proof.
  destruct (repr_val_head v) as (c & body & -> & [-> | [-> | ->]]);
    reflexivity.
Qed.

Lemma eval_items_repr (l : list (option string)) (fuel : nat) :
  l <> [] -> List.length l <= fuel ->
  eval_items fuel (items_text l) = Some l.
Proof.
  revert fuel. induction l as [|v l IH]; intros fuel Hne Hf; [congruence|].
  destruct fuel as [|fuel]; [simpl in Hf; lia|].
  unfold items_text. destruct l as [|v' l].
  - cbn [map join eval_items]. rewrite skip_blanks_repr_val, eval_atom_repr_val.
    reflexivity.
  - change (join ", " (map repr_val (v :: v' :: l)) ++ "]")
      with ((repr_val v ++ ", " ++ join ", " (map repr_val (v' :: l))) ++ "]").
    rewrite append_assoc. cbn [eval_items].
    rewrite skip_blanks_repr_val, eval_atom_repr_val.
    rewrite append_assoc. fold (items_text (v' :: l)).
    cbn [append skip_blanks lstrip_by is_char Ascii.eqb Bool.eqb].
    assert (IH' : eval_items fuel (String " " (items_text (v' :: l)))
                  = Some (v' :: l)).
    { destruct fuel as [|fuel]; [simpl in Hf; lia|].
      specialize (IH (S fuel)).
      cbn [eval_items] in IH |- *.
      cbn [skip_blanks lstrip_by is_char Ascii.eqb Bool.eqb].
      apply IH; [discriminate | simpl in *; lia]. }
    rewrite IH'.
    unfold items_text at 1. cbn [map join].
    destruct (repr_val_head v') as (c & body & E & Hc). 
    destruct l as [|v'' l]; cbn [map join]; rewrite E;
      destruct Hc as [-> | [-> | ->]]; reflexivity.
Qed.

Lemma length_repr_val (v : option string) : 2 <= String.length (repr_val v).
Proof.
  destruct v as [s|]; simpl; [|lia].
  rewrite length_append. simpl. lia.
Qed.

Lemma length_items_text (l : list (option string)) :
  List.length l <= String.length (items_text l).
Proof.
  unfold items_text. induction l as [|v [|v' l] IH].
  - simpl. lia.
  - cbn [map join]. rewrite length_append.
    pose proof (length_repr_val v). simpl. lia.
  - change (join ", " (map repr_val (v :: v' :: l)))
      with (repr_val v ++ ", " ++ join ", " (map repr_val (v' :: l))).
    rewrite !append_assoc, length_append.
    pose proof (length_repr_val v). cbn [append String.length List.length] in *.
    lia.
Qed.

(** [eval(str(l)) == l] for every list of values that are [None] or a
    [str]. *)
Lemma eval_str_of_list (l : list (option string)) :
  eval_str_list (str_of_list l) = Some l.
Proof.
  unfold str_of_list, eval_str_list. fold (items_text l).
  cbn [append skip_blanks lstrip_by is_char Ascii.eqb Bool.eqb].
  destruct l as [|v l]; [reflexivity|].
  rewrite eval_items_repr; [|discriminate|apply length_items_text].
  unfold items_text. destruct (repr_val_head v) as (c & body & E & Hc).
  destruct l as [|v' l]; cbn [map join]; rewrite ?append_assoc, E;
    destruct Hc as [-> | [-> | ->]]; reflexivity.
Qed.

(** ** Rows: [save_to_csv] and [load_from_csv] *)

Lemma map_Phone_value (ps : list Field) : map Phone (map value ps) = ps.
Proof.
  induction ps as [|[v] ps IH]; simpl; [reflexivity|]. now rewrite IH.
Qed.

Lemma map_value_Phone (l : list (option string)) :
  map value (map Phone l) = l.
Proof. induction l as [|v l IH]; simpl; [reflexivity|]. now rewrite IH. Qed.

(** C8, as stated, fails: the record that the line "add 12345678901" stores
    has the name [None]; the name field of its row is empty, and the row is
    read back as a record whose name is the empty string.  A record whose
    birthday is the empty string is read back without birthday. *)
Lemma row_round_trip_loses_None_name :
  dict_get None
    (address_book
       (snd (run (turn "add 12345678901") [] (Date 2025 3 11))))
  = Some (Record_init None None [Some "12345678901"])
  /\ load_row (to_row (Record_init None None [Some "12345678901"]))
     = Some (Record_init (Some "") None [Some "12345678901"])
  /\ load_row (to_row (Record_init None None [Some "12345678901"]))
     <> Some (Record_init None None [Some "12345678901"])
  /\ load_row (to_row (add_birthday (Record_init (Some "Mary") None [])
                                    (Some "")))
     = Some (Record_init (Some "Mary") None []).
Proof.
  split; [vm_compute; reflexivity|].
  split; [vm_compute; reflexivity|].
  split; [vm_compute; discriminate|].
  vm_compute. reflexivity.
Qed.

(** C8, amended: the row written for a record is read back as the same
    record, with the same name, the same birthday and the same phones in the
    same order, when the name of the record is a [str], its birthday, if it
    has one, is not the empty string, and no field of the row is longer than
    the limit of the csv reader; the phones are any values.  A row whose
    birthday field is empty is read as a record without birthday. *)
Theorem row_round_trip :
  (forall r : Record,
      storable r ->
      row_within_limit (to_row r) = true ->
      load_row (to_row r) = Some r)
  /\ (forall (n phones_str : string) (l : list (option string)),
         eval_str_list phones_str = Some l ->
         row_within_limit (n, "", phones_str) = true ->
         exists r, load_row (n, "", phones_str) = Some r
                   /\ birthday r = None
                   /\ show_name r = Some n
                   /\ show_phones r = l).
Proof.
  split.
  - intros [[nv] bd ps] [[n Hn] Hb] Hl. simpl in Hn. subst nv.
    unfold load_row, DictReader_row. rewrite Hl.
    unfold to_row, from_row. cbn [name birthday phones value _value csv_str].
    rewrite eval_str_of_list, Record_init_stores. cbn [truthy map].
    rewrite fold_add_phone.
    destruct bd as [[bv]|].
    + specialize (Hb _ eq_refl). cbn [value _value] in *.
      destruct bv as [[|c b]|]; try discriminate Hb.
      cbn [csv_str truthy set_birthday name birthday phones app].
      now rewrite map_Phone_value.
    + cbn [truthy name birthday phones app]. now rewrite map_Phone_value.
  - intros n phones_str l E Hl. unfold load_row, DictReader_row. rewrite Hl.
    unfold from_row. rewrite E.
    rewrite Record_init_stores, fold_add_phone. cbn [truthy map].
    eexists. split; [reflexivity|].
    cbn [name birthday phones app show_name show_phones value _value].
    repeat split. apply map_value_Phone.
Qed.

Lemma row_round_trip_witness :
  load_row (to_row record_mary) = Some record_mary
  /\ exists r, load_row ("Mary", "", "['12345678901']") = Some r
               /\ birthday r = None
               /\ show_phones r = [Some "12345678901"].
Proof.
  split.
  - apply (proj1 row_round_trip record_mary).
    + split.
      * exists "Mary". reflexivity.
      * intros b H. injection H as <-. reflexivity.
    + vm_compute. reflexivity.
  - destruct (proj2 row_round_trip "Mary" "['12345678901']"
                [Some "12345678901"]) as (r & H1 & H2 & _ & H3).
    + vm_compute. reflexivity.
    + vm_compute. reflexivity.
    + exists r. split; [exact H1|]. split; [exact H2 | exact H3].
Defined.

(** ** [Birthday.value] *)

Open Scope Z_scope.

Ltac eval_codes :=
  repeat match goal with
  | H : context [code (Ascii ?a ?b ?c ?d ?e ?f ?g ?h)] |- _ =>
      let v := eval vm_compute in (code (Ascii a b c d e f g h)) in
      change (code (Ascii a b c d e f g h)) with v in H
  | |- context [code (Ascii ?a ?b ?c ?d ?e ?f ?g ?h)] =>
      let v := eval vm_compute in (code (Ascii a b c d e f g h)) in
      change (code (Ascii a b c d e f g h)) with v
  end.

Ltac solve_decimal :=
  first [ assumption
        | unfold is_decimal, is_char in *;
          repeat match goal with
                 | H : in_range _ _ _ = true |- _ => apply in_range_true in H
                 | H : Ascii.eqb _ _ = true |- _ =>
                     apply Ascii.eqb_eq in H; subst
                 end;
          apply in_range_true; eval_codes; lia ].

Ltac solve_digits :=
  cbn [all_chars]; rewrite ?andb_true_iff;
  repeat split; first [reflexivity | solve_decimal].

Lemma length_0_empty (s : string) : String.length s = 0%nat -> s = "".
Proof. destruct s; [reflexivity | discriminate]. Qed.

(** Every successful match of the pattern of [strptime] that takes the whole
    string splits it into a year of four digits, a month and a day. *)
Lemma regex_Ymd_sound (s mt : string) (found : mstate) :
  re_match regex_Ymd s = Some (mt, found) ->
  String.length s = pos found ->
  exists Y M D,
    s = Y ++ "/" ++ M ++ "/" ++ D
    /\ groups found = [("d", D); ("m", M); ("Y", Y)]
    /\ String.length Y = 4%nat /\ all_chars is_decimal Y = true
    /\ short_number M /\ day_text D.
Proof.
  intros H Hlen. unfold re_match, match_at in H.
  unfold regex_Ymd, regex_m, regex_d, Lit in H. cbn [Rep] in H.
  repeat match_inv H.
  all: injection H as <- <-; cbn [pos String.length] in Hlen;
    repeat (injection Hlen as Hlen);
    apply length_0_empty in Hlen; subst.
  all: match goal with
    | |- exists Y M D, String ?y1 (String ?y2 (String ?y3 (String ?y4
           (String _ ?tl)))) = _ /\ _ =>
        exists (String y1 (String y2 (String y3 (String y4 ""))))
    end.
  all: match goal with
    | |- context [[("d", ?D); ("m", ?M); _]] => exists M, D
    end.
  all: cbn [append] in *.
  all: repeat match goal with
    | H : is_char _ _ = true |- _ => apply is_char_true in H; subst
    end.
  all: (split; [reflexivity|]); (split; [reflexivity|]);
    (split; [reflexivity|]); (split; [solve_digits|]);
    (split; [split; [solve_digits | auto]|]).
  all: first [ left; split; [solve_digits | auto]
             | right; eexists; split; [reflexivity | solve_decimal] ].
Qed.

(** *** Digits and their values *)

Lemma is_decimal_code (c : ascii) :
  is_decimal c = true <-> (48 <= code c <= 57)%N.
Proof. unfold is_decimal. rewrite in_range_true. reflexivity. Qed.

Lemma is_decimal_not_space (c : ascii) :
  is_decimal c = true -> is_space c = false.
Proof.
  rewrite is_decimal_code. intros H. unfold is_space. cbv zeta.
  repeat match goal with
  | |- context [(?a <=? ?b)%N] => destruct (N.leb_spec a b)
  | |- context [(?a =? ?b)%N] => destruct (N.eqb_spec a b)
  end; simpl; try reflexivity; lia.
Qed.

Lemma digit_value_code (c : ascii) : digit_value c = Z.of_N (code c) - 48.
Proof. reflexivity. Qed.

Lemma int_of_1 (a : ascii) :
  is_decimal a = true -> int_of (String a "") = digit_value a.
Proof.
  intros Ha. unfold int_of. cbn [lstrip_by].
  rewrite (is_decimal_not_space _ Ha). cbn [int_acc]. lia.
Qed.

Lemma int_of_2 (a b : ascii) :
  is_decimal a = true ->
  int_of (String a (String b "")) = 10 * digit_value a + digit_value b.
Proof.
  intros Ha. unfold int_of. cbn [lstrip_by].
  rewrite (is_decimal_not_space _ Ha). cbn [int_acc]. lia.
Qed.

Lemma int_of_blank (a : ascii) :
  is_decimal a = true ->
  int_of (String " " (String a "")) = digit_value a.
Proof.
  intros Ha. unfold int_of. cbn [lstrip_by].
  change (is_space " ") with true. cbv iota.
  rewrite (is_decimal_not_space _ Ha). cbn [int_acc]. lia.
Qed.

(** Evaluate the matcher in the goal along a string whose first characters
    are known, deciding each test on a character and closing the cases
    that the facts at hand exclude. *)
Ltac decide_test :=
  match goal with
  | |- context [is_char ?x ?c] =>
      let E := fresh "E" in
      destruct (is_char x c) eqn:E;
      [apply is_char_true in E; apply (f_equal code) in E
      | apply is_char_false in E]
  | |- context [in_range ?lo ?hi ?c] =>
      let E := fresh "E" in
      destruct (in_range lo hi c) eqn:E;
      [apply in_range_true in E | apply in_range_false in E]
  end;
  eval_codes; try (exfalso; lia).

Ltac match_eval :=
  repeat first
    [ rewrite rmatch_Seq | rewrite rmatch_Alt | rewrite rmatch_Chr_cons
    | rewrite rmatch_Chr_nil | rewrite rmatch_Eps ];
  cbn [orelse append].

(** A month of one or two digits between 1 and 12, followed by a slash, is
    taken whole by the pattern of the month. *)
Lemma regex_m_complete {A} (M s' : string) (p : nat)
    (g : list (string * string)) (k : string -> mstate -> option A) (x : A) :
  short_number M -> 1 <= int_of M <= 12 ->
  k M (MState (String.length M + p) (String "/" s') g) = Some x ->
  rmatch regex_m (MState p (M ++ String "/" s') g) k = Some x.
Proof.
  intros [Hd Hl] Hv Hk. unfold regex_m, Lit.
  destruct M as [|a [|b [|c M]]]; simpl in Hl; try lia;
    cbn [all_chars] in Hd; rewrite ?andb_true_iff in Hd.
  - destruct Hd as [Ha _]. rewrite (int_of_1 _ Ha), digit_value_code in Hv.
    apply is_decimal_code in Ha. cbn [append String.length Nat.add] in *.
    match_eval. repeat (decide_test; cbn [orelse]);
      rewrite ?Hk; reflexivity.
  - destruct Hd as (Ha & Hb & _).
    rewrite (int_of_2 _ _ Ha), !digit_value_code in Hv.
    apply is_decimal_code in Ha, Hb.
    cbn [append String.length Nat.add] in *.
    match_eval. repeat (decide_test; cbn [orelse]);
      rewrite ?Hk; reflexivity.
Qed.

(** A day between 1 and 31 that ends the string is taken whole by the
    pattern of the day. *)
Lemma regex_d_complete {A} (D : string) (p : nat)
    (g : list (string * string)) (k : string -> mstate -> option A) (x : A) :
  day_text D -> 1 <= int_of D <= 31 ->
  k D (MState (String.length D + p) "" g) = Some x ->
  rmatch regex_d (MState p D g) k = Some x.
Proof.
  intros HD Hv Hk. unfold regex_d, Lit.
  destruct HD as [[Hd Hl]|(c & -> & Hc)].
  - destruct D as [|a [|b [|c D]]]; simpl in Hl; try lia;
      cbn [all_chars] in Hd; rewrite ?andb_true_iff in Hd.
    + destruct Hd as [Ha _]. rewrite (int_of_1 _ Ha), digit_value_code in Hv.
      apply is_decimal_code in Ha. cbn [append String.length Nat.add] in *.
      match_eval. repeat (decide_test; cbn [orelse]);
        rewrite ?Hk; reflexivity.
    + destruct Hd as (Ha & Hb & _).
      rewrite (int_of_2 _ _ Ha), !digit_value_code in Hv.
      pose proof Hb as Hb'.
      apply is_decimal_code in Ha, Hb.
      cbn [append String.length Nat.add] in *.
      match_eval. rewrite ?Hb'. repeat (decide_test; cbn [orelse]);
        rewrite ?Hk; reflexivity.
  - rewrite (int_of_blank _ Hc), digit_value_code in Hv.
    apply is_decimal_code in Hc. cbn [append String.length Nat.add] in *.
    match_eval. repeat (decide_test; cbn [orelse]);
      rewrite ?Hk; reflexivity.
Qed.

(** The pattern of [strptime] takes every string made of a year of four
    digits, a month between 1 and 12 and a day between 1 and 31 written as
    [accepted_date_text] says. *)
Lemma regex_Ymd_complete (Y M D : string) :
  String.length Y = 4%nat -> all_chars is_decimal Y = true ->
  short_number M -> 1 <= int_of M <= 12 ->
  day_text D -> 1 <= int_of D <= 31 ->
  exists mt n,
    re_match regex_Ymd (Y ++ "/" ++ M ++ "/" ++ D)
    = Some (mt, MState n "" [("d", D); ("m", M); ("Y", Y)])
    /\ n = String.length (Y ++ "/" ++ M ++ "/" ++ D).
Proof.
  intros HlY HdY HM HvM HD HvD.
  exists (Y ++ "/" ++ M ++ "/" ++ D)%string,
         (String.length D + S (String.length M + S (0 + 4)))%nat.
  split.
  - unfold re_match, match_at, regex_Ymd.
    rewrite rmatch_Seq, rmatch_Grp, rmatch_Rep_Chr. cbn [rest pos groups].
    rewrite (@take_class_append _ _ _ _ HlY HdY). cbn [rest pos groups].
    unfold Lit. cbn [append]. rewrite rmatch_Seq, rmatch_Chr_cons.
    change (is_char "/" "/") with true. cbv iota.
    rewrite rmatch_Seq, rmatch_Grp.
    apply regex_m_complete; [exact HM | exact HvM|]. cbn [rest pos groups].
    rewrite rmatch_Seq, rmatch_Chr_cons.
    change (is_char "/" "/") with true. cbv iota.
    rewrite rmatch_Grp.
    apply regex_d_complete; [exact HD | exact HvD|]. cbn [rest pos groups].
    cbn [append]. reflexivity.
  - rewrite !length_append. simpl. lia.
Qed.

Lemma days_in_month_le_31 (y m : Z) : 1 <= m <= 12 -> _days_in_month y m <= 31.
Proof.
  intros Hm. rewrite days_in_month_length. unfold month_length.
  split_month m Hm; destruct (_is_leap y); calendar; lia.
Qed.

(** [strptime] returns exactly on the texts of [accepted_date_text]. *)
Lemma strptime_Ymd_spec (s : string) :
  (exists bd, strptime_Ymd s = Ok bd) <-> accepted_date_text s.
Proof.
  unfold strptime_Ymd, accepted_date_text. split.
  - intros [bd H].
    destruct (re_match regex_Ymd s) as [[mt found]|] eqn:Hm; [|discriminate].
    destruct (Nat.eqb_spec (String.length s) (pos found)) as [Hl|];
      [|discriminate].
    cbn [negb] in H.
    destruct (regex_Ymd_sound s Hm Hl) as (Y & M & D & Hs & Hg & HY).
    rewrite Hg in H. cbn in H. apply date_new_ok in H. destruct H as [_ H].
    apply check_date_fields_ok in H. cbn [year month day] in H.
    exists Y, M, D. unfold real_date. tauto.
  - intros (Y & M & D & -> & HlY & HdY & HM & HD & Hy & Hmo & Hd).
    pose proof (days_in_month_le_31 (int_of Y) Hmo) as H31.
    destruct (@regex_Ymd_complete Y M D) as (mt & n & -> & ->); auto;
      try lia.
    cbn [pos groups]. rewrite Nat.eqb_refl. cbn.
    exists (Date (int_of Y) (int_of M) (int_of D)).
    apply date_new_ok. split; [reflexivity|].
    apply check_date_fields_ok. cbn [year month day]. tauto.
Qed.

(** What the setter of [Birthday] accepts, on strings of code points below
    256: exactly the strings made of four digits, a slash, a month of one
    or two digits, a slash and a day of one or two digits (or a blank and
    one digit) that name a real calendar date of the years 1 to 9999.  On
    success it stores the string; otherwise it raises with the message of
    the source and leaves the previous value untouched.  It fails on
    "2024/02/30", on "2024/13/01" and on malformed strings. *)
Lemma Birthday_value_setter_spec (self : Field) (s : string) :
  (fst (Birthday_value_setter self s) = Ok tt <-> accepted_date_text s)
  /\ (accepted_date_text s ->
      Birthday_value_setter self s = (Ok tt, mkField (Some s)))
  /\ (~ accepted_date_text s ->
      Birthday_value_setter self s
      = (Raise (ValueError birthday_error), self))
  /\ ~ accepted_date_text "2024/02/30"
  /\ ~ accepted_date_text "2024/13/01"
  /\ ~ accepted_date_text "20240101"
  /\ accepted_date_text "2024/02/29"
  /\ accepted_date_text "2024/1/5".
Proof.
  assert (Hok : accepted_date_text s ->
                Birthday_value_setter self s = (Ok tt, mkField (Some s))).
  { intros H. apply strptime_Ymd_spec in H. destruct H as [bd H].
    unfold Birthday_value_setter. now rewrite H. }
  assert (Hko : ~ accepted_date_text s ->
                Birthday_value_setter self s
                = (Raise (ValueError birthday_error), self)).
  { intros H. unfold Birthday_value_setter.
    destruct (strptime_Ymd s) as [bd|e] eqn:E.
    - exfalso. apply H. apply strptime_Ymd_spec. eauto.
    - destruct e; try reflexivity; exfalso; revert E;
        unfold strptime_Ymd, date_new, _check_date_fields, rbind;
        destruct (re_match regex_Ymd s) as [[mt found]|]; try discriminate;
        repeat (destruct (negb _); try discriminate). }
  assert (Hex : forall t, (forall bd, strptime_Ymd t <> Ok bd) ->
                          ~ accepted_date_text t).
  { intros t H Ha. apply strptime_Ymd_spec in Ha. destruct Ha as [bd Ha].
    exact (H bd Ha). }
  split; [|split; [exact Hok|split; [exact Hko|]]].
  - split.
    + intros H. apply strptime_Ymd_spec. unfold Birthday_value_setter in H.
      destruct (strptime_Ymd s) as [bd|e]; [eauto|].
      destruct e; discriminate H.
    + intros H. now rewrite (Hok H).
  - repeat split.
    + apply Hex. intros bd. vm_compute. discriminate.
    + apply Hex. intros bd. vm_compute. discriminate.
    + apply Hex. intros bd. vm_compute. discriminate.
    + apply strptime_Ymd_spec. eexists. vm_compute. reflexivity.
    + apply strptime_Ymd_spec. eexists. vm_compute. reflexivity.
Qed.



(** C4 (the code departs from the claim): the setter of [Birthday] accepts
    "2024/1/5" and "2024/1/ 5" and stores them, although neither is four
    digits, a slash, two digits, a slash and two digits: [strptime] takes a
    month and a day of one digit, and a day written as a blank and a digit.
    The message of the setter names the form YYYY/MM/DD, and the pattern of
    [parse_input] for birthdays refuses both strings.  [edit_birthday]
    reaches the setter on a record that has a birthday. *)
Theorem Birthday_value_setter_accepts_short_fields :
  Birthday_value_setter (Birthday None) "2024/1/5"
  = (Ok tt, mkField (Some "2024/1/5"))
  /\ ~ strict_YMD "2024/1/5"
  /\ matches birthday_re "2024/1/5" = false
  /\ Birthday_value_setter (Birthday None) "2024/1/ 5"
     = (Ok tt, mkField (Some "2024/1/ 5"))
  /\ ~ strict_YMD "2024/1/ 5"
  /\ matches birthday_re "2024/1/ 5" = false
  /\ edit_birthday record_mary "2024/1/5"
     = (Ok tt, set_birthday record_mary (Some (mkField (Some "2024/1/5")))).
Proof.
  assert (H : forall s, String.length s <> 10%nat -> ~ strict_YMD s).
  { intros s Hs (Y & M & D & E & HY & HM & HD & _). apply Hs.
    rewrite E, !length_append, HY, HM, HD. reflexivity. }
  split; [vm_compute; reflexivity|].
  split; [apply H; discriminate|].
  split; [vm_compute; reflexivity|].
  split; [vm_compute; reflexivity|].
  split; [apply H; discriminate|].
  split; [vm_compute; reflexivity|].
  vm_compute. reflexivity.
Qed.

(** * Further properties *)

Close Scope Z_scope.

(** ** Dicts *)

Lemma dict_get_None_keys {V} (k : key) (d : dict V) :
  dict_get k d = None <-> ~ In k (dict_keys d).
Proof.
  rewrite <- dict_mem_In. unfold dict_mem.
  destruct (dict_get k d); split; try congruence; intros H; exfalso; auto.
Qed.

Lemma dict_set_absent {V} (k : key) (v : V) (d : dict V) :
  dict_get k d = None -> dict_set k v d = (d ++ [(k, v)])%list.
Proof.
  induction d as [|[k' v'] d IH]; simpl; [reflexivity|].
  destruct (val_eqb k k'); [discriminate|]. intros H. now rewrite IH.
Qed.

Lemma dict_keys_set {V} (k : key) (v : V) (d : dict V) :
  dict_keys (dict_set k v d)
  = if dict_mem k d then dict_keys d else (dict_keys d ++ [k])%list.
Proof.
  destruct (dict_mem k d) eqn:E.
  - now apply dict_keys_set_present.
  - unfold dict_mem in E. destruct (dict_get k d) eqn:G; [discriminate|].
    rewrite (dict_set_absent _ _ _ G). unfold dict_keys.
    now rewrite map_app.
Qed.

Lemma NoDup_snoc {X} (l : list X) (x : X) :
  NoDup l -> ~ In x l -> NoDup (l ++ [x])%list.
Proof.
  induction l as [|y l IH]; simpl; intros Hnd Hx.
  - constructor; [tauto | constructor].
  - inversion Hnd as [|? ? Hy Hl]; subst. constructor.
    + rewrite in_app_iff. simpl. intros [H|[H|[]]]; [tauto | subst; tauto].
    + apply IH; tauto.
Qed.

Lemma unique_keys_set {V} (k : key) (v : V) (d : dict V) :
  unique_keys d -> unique_keys (dict_set k v d).
Proof.
  unfold unique_keys. intros H. rewrite dict_keys_set.
  destruct (dict_mem k d) eqn:E; [exact H|].
  apply NoDup_snoc; [exact H|].
  intros Hin. apply dict_mem_In in Hin. congruence.
Qed.

Lemma dict_del_absent {V} (k : key) (d : dict V) :
  dict_get k d = None -> dict_del k d = d.
Proof.
  induction d as [|[k' v'] d IH]; simpl; [reflexivity|].
  destruct (val_eqb k k'); [discriminate|]. intros H. now rewrite IH.
Qed.

Lemma dict_keys_del {V} (k : key) (d : dict V) :
  unique_keys d ->
  dict_keys (dict_del k d)
  = filter (fun k' => negb (val_eqb k k')) (dict_keys d).
Proof.
  unfold unique_keys, dict_keys.
  induction d as [|[k' v'] d IH]; simpl; intros Hnd; [reflexivity|].
  inversion Hnd as [|? ? Hk Hd]; subst.
  destruct (val_eqb_spec k k') as [->|Hne]; simpl.
  - symmetry. apply forallb_filter_id. apply forallb_forall.
    intros k Hin. destruct (val_eqb_spec k' k); [subst; tauto | reflexivity].
  - now rewrite IH.
Qed.

Lemma dict_get_del_same {V} (k : key) (d : dict V) :
  unique_keys d -> dict_get k (dict_del k d) = None.
Proof.
  intros Hnd. apply dict_get_None_keys. rewrite dict_keys_del by exact Hnd.
  rewrite filter_In. intros [_ H]. now rewrite val_eqb_refl in H.
Qed.

Lemma dict_get_del_other {V} (k k0 : key) (d : dict V) :
  k0 <> k -> dict_get k0 (dict_del k d) = dict_get k0 d.
Proof.
  intros Hne. induction d as [|[k' v'] d IH]; simpl; [reflexivity|].
  destruct (val_eqb_spec k k') as [->|]; simpl.
  - destruct (val_eqb_spec k0 k'); congruence.
  - now rewrite IH.
Qed.

Lemma unique_keys_del {V} (k : key) (d : dict V) :
  unique_keys d -> unique_keys (dict_del k d).
Proof.
  intros Hnd. unfold unique_keys. rewrite dict_keys_del by exact Hnd.
  apply NoDup_filter. exact Hnd.
Qed.

Lemma In_dict_del {V} (k : key) (e : key * V) (d : dict V) :
  In e (dict_del k d) -> In e d.
Proof.
  induction d as [|[k' v'] d IH]; simpl; [tauto|].
  destruct (val_eqb k k'); simpl; intuition.
Qed.

Lemma In_dict_set {V} (k : key) (v : V) (e : key * V) (d : dict V) :
  In e (dict_set k v d) -> In e d \/ (val_eqb k (fst e) = true /\ snd e = v).
Proof.
  induction d as [|[k' v'] d IH]; simpl.
  - intros [<-|[]]. right. simpl. now rewrite val_eqb_refl.
  - destruct (val_eqb k k') eqn:E; simpl.
    + intros [<-|H]; [right; simpl; auto | auto].
    + intros [<-|H]; [auto | destruct (IH H); auto].
Qed.

(** Two dicts with the same keys in the same order and the same value under
    every key are the same dict. *)
Lemma dict_ext {V} (d1 d2 : dict V) :
  unique_keys d1 -> dict_keys d1 = dict_keys d2 ->
  (forall k, dict_get k d1 = dict_get k d2) -> d1 = d2.
Proof.
  unfold unique_keys, dict_keys. revert d2.
  induction d1 as [|[k1 v1] d1 IH]; intros [|[k2 v2] d2]; simpl;
    intros Hnd Hk Hg; try discriminate; [reflexivity|].
  injection Hk as <- Hk. inversion Hnd as [|? ? Hn1 Hd1]; subst.
  pose proof (Hg k1) as H1. rewrite val_eqb_refl in H1. injection H1 as <-.
  f_equal. apply IH; [exact Hd1 | exact Hk|].
  intros k. specialize (Hg k).
  destruct (val_eqb_spec k k1) as [E|Hne]; [subst k; clear Hg|exact Hg].
  assert (G1 : dict_get k1 d1 = None) by (apply dict_get_None_keys; exact Hn1).
  assert (G2 : dict_get k1 d2 = None).
  { apply dict_get_None_keys. unfold dict_keys. now rewrite <- Hk. }
  congruence.
Qed.

(** ** [AddressBook.add_record] and [delete_record] *)

Lemma book_ok_add (book : AddressBook) (r : Record) :
  book_ok book -> book_ok (add_record book r).
Proof.
  intros [Hu Hk]. split; [now apply unique_keys_set|].
  unfold keyed_by_name, add_record in *. rewrite Forall_forall in *.
  intros e He. apply In_dict_set in He. destruct He as [He|[E1 E2]].
  - auto.
  - destruct e as [k0 r0]. simpl in *. subst r0.
    destruct (val_eqb_spec (value (name r)) k0); congruence.
Qed.

Lemma book_ok_delete (book : AddressBook) (k : key) :
  book_ok book -> book_ok (delete_record book k).
Proof.
  intros [Hu Hk]. unfold delete_record.
  destruct (dict_mem k book); [|now split]. split.
  - now apply unique_keys_del.
  - unfold keyed_by_name in *. rewrite Forall_forall in *.
    intros e He. apply Hk. eapply In_dict_del. exact He.
Qed.

(** Deleting a name twice is deleting it once, and deleting an absent name
    changes nothing. *)
Lemma delete_record_absent (book : AddressBook) (k : key) :
  dict_mem k book = false -> delete_record book k = book.
Proof. unfold delete_record. now intros ->. Qed.

(** ** Computations that keep the book, and computations that return *)

Section Closure.

Context {A B : Type}.

Lemma kb_ret (a : A) : keeps_book (ret a).
Proof. intros w. reflexivity. Qed.

Lemma kb_lift (r : result A) : keeps_book (lift r).
Proof. intros w. reflexivity. Qed.

Lemma kb_bind (m : M A) (f : A -> M B) :
  keeps_book m -> (forall a, keeps_book (f a)) -> keeps_book (bind m f).
Proof.
  intros Hm Hf w. unfold bind. specialize (Hm w).
  destruct (m w) as [[a|e] w']; simpl in *.
  - now rewrite Hf.
  - exact Hm.
Qed.

Lemma kb_keeps_ok (m : M A) : keeps_book m -> keeps_ok m.
Proof. intros H w Hw. now rewrite H. Qed.

Lemma ko_bind (m : M A) (f : A -> M B) :
  keeps_ok m -> (forall a, keeps_ok (f a)) -> keeps_ok (bind m f).
Proof.
  intros Hm Hf w Hw. unfold bind. specialize (Hm w Hw).
  destruct (m w) as [[a|e] w']; simpl in *.
  - now apply Hf.
  - exact Hm.
Qed.

Lemma rt_ret (a : A) : returns (ret a).
Proof. intros w. eexists; eexists; reflexivity. Qed.

Lemma rt_bind (m : M A) (f : A -> M B) :
  returns m -> (forall a, returns (f a)) -> returns (bind m f).
Proof.
  intros Hm Hf w. unfold bind. destruct (Hm w) as (a & w' & ->).
  apply Hf.
Qed.

End Closure.

Lemma kb_get_book : keeps_book get_book.
Proof. intros w. reflexivity. Qed.

Lemma kb_get_today : keeps_book get_today.
Proof. intros w. reflexivity. Qed.

Lemma kb_write (text : string) : keeps_book (write text).
Proof. intros w. reflexivity. Qed.

Lemma kb_print (text : string) : keeps_book (print text).
Proof. apply kb_write. Qed.

Lemma kb_print_noend (text : string) : keeps_book (print_noend text).
Proof. apply kb_write. Qed.

Lemma kb_when (b : bool) (m : M unit) : keeps_book m -> keeps_book (when b m).
Proof. destruct b; [auto | intros _; apply kb_ret]. Qed.

Lemma kb_for_each {X} (l : list X) (body : X -> M unit) :
  (forall x, keeps_book (body x)) -> keeps_book (for_each l body).
Proof.
  intros H. induction l as [|x l IH]; simpl.
  - apply kb_ret.
  - apply kb_bind; auto.
Qed.

Lemma rt_get_book : returns get_book.
Proof. intros w. eexists; eexists; reflexivity. Qed.

Lemma rt_write (text : string) : returns (write text).
Proof. intros w. eexists; eexists; reflexivity. Qed.

Lemma rt_print (text : string) : returns (print text).
Proof. apply rt_write. Qed.

Lemma rt_print_noend (text : string) : returns (print_noend text).
Proof. apply rt_write. Qed.

Lemma rt_set_book (b : AddressBook) : returns (set_book b).
Proof. intros w. eexists; eexists; reflexivity. Qed.

Lemma rt_when (b : bool) (m : M unit) : returns m -> returns (when b m).
Proof. destruct b; [auto | intros _; apply rt_ret]. Qed.

Lemma rt_for_each {X} (l : list X) (body : X -> M unit) :
  (forall x, returns (body x)) -> returns (for_each l body).
Proof.
  intros H. induction l as [|x l IH]; simpl.
  - apply rt_ret.
  - apply rt_bind; auto.
Qed.

Create HintDb book.
#[local] Hint Resolve kb_ret kb_lift kb_get_book kb_get_today kb_write
  kb_print kb_print_noend kb_when kb_for_each : book.
#[local] Hint Resolve rt_ret rt_get_book rt_write rt_print rt_print_noend
  rt_set_book rt_when rt_for_each : book.

(** Go through a handler along its binds and its tests. *)
Ltac through :=
  repeat first
    [ progress auto with book
    | apply kb_bind; [|intros ?]
    | apply rt_bind; [|intros ?]
    | apply kb_for_each; intros ?
    | apply rt_for_each; intros ?
    | match goal with
      | |- keeps_book (match ?x with _ => _ end) => destruct x
      | |- returns (match ?x with _ => _ end) => destruct x
      | |- keeps_book (when _ _) => apply kb_when
      | |- returns (when _ _) => apply rt_when
      end ].

Lemma kb_print_record_tail (record : Record) :
  keeps_book (print_record_tail record).
Proof. unfold print_record_tail. through. Qed.

Lemma rt_print_record_tail (record : Record) :
  returns (print_record_tail record).
Proof. unfold print_record_tail. through. Qed.

#[local] Hint Resolve kb_print_record_tail rt_print_record_tail : book.

Lemma kb_handle_help n b p : keeps_book (handle_help n b p).
Proof. unfold handle_help. through. Qed.

Lemma kb_handle_hello n b p : keeps_book (handle_hello n b p).
Proof. unfold handle_hello. through. Qed.

Lemma kb_handle_show_all n b p : keeps_book (handle_show_all n b p).
Proof. unfold handle_show_all, show_all_records. through. Qed.

Lemma kb_handle_show_phones n b p : keeps_book (handle_show_phones n b p).
Proof. unfold handle_show_phones. through. Qed.

Lemma kb_handle_show_bday n b p : keeps_book (handle_show_bday n b p).
Proof. unfold handle_show_bday. through. Qed.

Lemma kb_handle_d2b n b p : keeps_book (handle_d2b n b p).
Proof. unfold handle_d2b. through. Qed.

Lemma kb_handle_search_name n b p : keeps_book (handle_search_name n b p).
Proof. unfold handle_search_name. through. Qed.

Lemma rt_handle_help n b p : returns (handle_help n b p).
Proof. unfold handle_help. through. Qed.

Lemma rt_handle_hello n b p : returns (handle_hello n b p).
Proof. unfold handle_hello. through. Qed.

Lemma rt_handle_show_all n b p : returns (handle_show_all n b p).
Proof. unfold handle_show_all, show_all_records. through. Qed.

Lemma rt_handle_show_bday n b p : returns (handle_show_bday n b p).
Proof. unfold handle_show_bday. through. Qed.

(** ** The handlers that write to the book *)

Lemma handle_delete_run (name b : option string) (p : list string)
    (w : World) :
  handle_delete name b p w
  = (Ok None,
     emit (mkWorld (delete_record (address_book w) name) (stdout w) (today w))
          [if dict_mem name (address_book w)
           then (("[+] Deleted record for " ++ str_of_opt name ++ ".")
                 ++ NL)%string
           else ("[-] Record not found." ++ NL)%string]).
Proof.
  unfold handle_delete, bind, get_book, set_book, print, write, ret, emit,
    delete_record.
  destruct (dict_mem name (address_book w)) eqn:E; cbn; rewrite ?E;
    reflexivity.
Qed.

Lemma handle_change_absent (book : AddressBook) (d : date)
    (name birthday : option string) (phones : list string) :
  dict_get name book = None ->
  run (handle_change name birthday phones) book d
  = (Ok None,
     mkWorld book
       ((if truthy name then []
         else [("[-] Missing required 'name' field." ++ NL)%string])
        ++ [("[-] Record not found." ++ NL)%string])%list d).
Proof.
  intros Hget. unfold run, handle_change, bind, get_book, when, print, write,
    ret.
  destruct (truthy name); cbn [negb address_book stdout today app];
    rewrite Hget; reflexivity.
Qed.

Lemma supplied_updates_name (r : Record) (birthday : option string)
    (phones : list string) :
  name (supplied_updates r birthday phones) = name r.
Proof.
  unfold supplied_updates.
  destruct (truthy birthday && birthday_passes birthday),
           (nonempty phones && phones_pass phones); reflexivity.
Qed.

Lemma book_ok_set (book : AddressBook) (k : key) (r r' : Record) :
  book_ok book -> dict_get k book = Some r -> name r' = name r ->
  book_ok (dict_set k r' book).
Proof.
  intros [Hu Hk] Hget Hn. split; [now apply unique_keys_set|].
  unfold keyed_by_name in *. rewrite Forall_forall in *.
  intros [k0 r0] He. apply In_dict_set in He. simpl in *.
  destruct He as [He|[E1 E2]]; [now apply (Hk (k0, r0))|].
  subst r0. rewrite Hn. apply dict_get_In in Hget.
  specialize (Hk _ Hget). simpl in Hk.
  destruct (val_eqb_spec k k0); congruence.
Qed.

(** Where [handle_change] leaves the book, from any world: it returns, and
    the record under [name], if there is one, has taken the supplied fields
    that pass. *)
Lemma handle_change_book (name birthday : option string)
    (phones : list string) (w : World) :
  exists res out,
    handle_change name birthday phones w
    = (Ok res,
       mkWorld
         (match dict_get name (address_book w) with
          | Some r =>
              dict_set name (supplied_updates r birthday phones)
                       (address_book w)
          | None => address_book w
          end)
         out (today w)).
Proof.
  unfold handle_change, supplied_updates, birthday_passes, phones_pass.
  pose proof (find_negb_forallb (matches phone_re) phones) as Hfind.
  destruct w as [bk o d]. unfold set_record.
  unfold bind, get_book, set_book, lift, when, print, write, ret.
  destruct (truthy name); cbn [negb address_book stdout today app];
    (destruct (dict_get name bk) as [r|] eqn:Hget;
     [|eexists; eexists; reflexivity]);
    (destruct (truthy birthday) eqn:Tb;
     [ destruct (truthy_Some _ Tb) as [s ->];
       destruct (strptime_passes_total s) as [[] ->]
     | ]);
    cbn [negb andb address_book stdout today app];
    (destruct (nonempty phones);
     [ destruct (find _ phones); rewrite Hfind | ]);
    cbn [negb andb address_book stdout today app];
    rewrite ?dict_set_set;
    try rewrite (dict_set_get_same _ _ Hget);
    eexists; eexists; reflexivity.
Qed.

Lemma rt_handle_add n b p : returns (handle_add n b p).
Proof.
  intros w. destruct (handle_add_always_adds n b p w) as (out & E & _).
  rewrite E. eexists; eexists; reflexivity.
Qed.

Lemma rt_handle_change n b p : returns (handle_change n b p).
Proof.
  intros w. destruct (handle_change_book n b p w) as (res & out & E).
  rewrite E. eexists; eexists; reflexivity.
Qed.

Lemma rt_handle_delete n b p : returns (handle_delete n b p).
Proof.
  intros w. rewrite handle_delete_run. eexists; eexists; reflexivity.
Qed.

Lemma ko_handle_add n b p : keeps_ok (handle_add n b p).
Proof.
  intros w Hw. destruct (handle_add_always_adds n b p w) as (out & E & _).
  rewrite E. cbn [snd address_book]. now apply book_ok_add.
Qed.

Lemma ko_handle_change n b p : keeps_ok (handle_change n b p).
Proof.
  intros w Hw. destruct (handle_change_book n b p w) as (res & out & E).
  rewrite E. cbn [snd address_book].
  destruct (dict_get n (address_book w)) as [r|] eqn:Hget; [|exact Hw].
  eapply book_ok_set; eauto using supplied_updates_name.
Qed.

Lemma ko_handle_delete n b p : keeps_ok (handle_delete n b p).
Proof.
  intros w Hw. rewrite handle_delete_run. cbn [snd address_book emit].
  now apply book_ok_delete.
Qed.

(** ** One turn of the loop *)

Lemma commands_get_In (command : option string) (h : handler) :
  commands_get command = Some h ->
  exists c, command = Some c /\ In (c, h) commands_table.
Proof.
  unfold commands_get. destruct command as [c|]; [|discriminate].
  destruct (find _ commands_table) as [[c' h']|] eqn:F; [|discriminate].
  intros H. injection H as <-. apply find_some in F. destruct F as [Hin E].
  simpl in E. apply String.eqb_eq in E. subst. eauto.
Qed.

(** Name the handler of a turn: one case for each entry of the table. *)
Ltac handler_cases H :=
  apply commands_get_In in H;
  let c := fresh "c" in
  let E := fresh "E" in
  destruct H as (c & E & H); subst;
  unfold commands_table in H; simpl In in H;
  repeat (destruct H as [H|H]; [injection H as <- <-|]);
  [..|destruct H].

Section RaisesOnly.

Context {A B : Type} (P : exn -> Prop).

Lemma ro_returns (m : M A) : returns m -> raises_only P m.
Proof.
  intros H w e. destruct (H w) as (a & w' & ->). discriminate.
Qed.

Lemma ro_bind (m : M A) (f : A -> M B) :
  raises_only P m -> (forall a, raises_only P (f a)) ->
  raises_only P (bind m f).
Proof.
  intros Hm Hf w e. unfold bind. specialize (Hm w).
  destruct (m w) as [[a|e'] w']; simpl in *.
  - apply Hf.
  - intros H. injection H as <-. now apply Hm.
Qed.

Lemma ro_lift (r : result A) :
  (forall e, r = Raise e -> P e) -> raises_only P (lift r).
Proof. intros H w e. simpl. apply H. Qed.

End RaisesOnly.

Lemma ro_weaken {A} (P Q : exn -> Prop) (m : M A) :
  (forall e, P e -> Q e) -> raises_only P m -> raises_only Q m.
Proof. intros H Hm w e He. apply H. exact (Hm w e He). Qed.

Lemma all_str_raises (l : list (option string)) (e : exn) :
  all_str l = Raise e -> e = TypeError.
Proof.
  induction l as [|[s|] l IH]; simpl; try discriminate.
  - destruct (all_str l); simpl; [discriminate|].
    intros H. apply IH. exact H.
  - intros H. now injection H as <-.
Qed.

Lemma date_new_raises (y m d : Z) (e : exn) :
  date_new y m d = Raise e -> exists msg, e = ValueError msg.
Proof.
  unfold date_new, _check_date_fields, rbind.
  repeat (destruct (negb _);
          [intros H; injection H as <-; eexists; reflexivity|]).
  discriminate.
Qed.

Lemma strptime_Ymd_raises (s : string) (e : exn) :
  strptime_Ymd s = Raise e -> exists msg, e = ValueError msg.
Proof.
  unfold strptime_Ymd.
  destruct (re_match regex_Ymd s) as [[m found]|];
    [|intros H; injection H as <-; eexists; reflexivity].
  destruct (negb _); [intros H; injection H as <-; eexists; reflexivity|].
  apply date_new_raises.
Qed.

Lemma days_remaining_raises (v : option string) (d : date) (e : exn) :
  days_remaining v d = Raise e ->
  e = TypeError \/ exists msg, e = ValueError msg.
Proof.
  unfold days_remaining, strptime_val, replace_year.
  destruct v as [s|]; [|intros H; injection H as <-; auto].
  destruct (strptime_Ymd s) as [bd|e0] eqn:E; simpl.
  - destruct (date_new _ (month bd) (day bd)) as [nb|e1] eqn:E1; simpl.
    + destruct (date_gt d nb).
      * destruct (date_new _ (month nb) (day nb)) as [nb'|e2] eqn:E2; simpl;
          [discriminate|].
        intros H. injection H as <-. right. eapply date_new_raises; eauto.
      * discriminate.
    + intros H. injection H as <-. right. eapply date_new_raises; eauto.
  - intros H. injection H as <-. right. eapply strptime_Ymd_raises; eauto.
Qed.

Lemma ro_handle_show_phones n b p :
  raises_only (fun e => e = TypeError) (handle_show_phones n b p).
Proof.
  unfold handle_show_phones.
  apply ro_bind; [apply ro_returns; auto with book|]. intros book.
  apply ro_bind; [|intros; apply ro_returns; auto with book].
  destruct (dict_get n book); [|apply ro_returns; auto with book].
  apply ro_bind; [|intros; apply ro_returns; auto with book].
  apply ro_lift. apply all_str_raises.
Qed.

Lemma ro_handle_d2b n b p :
  raises_only (fun e => e = TypeError \/ exists msg, e = ValueError msg)
              (handle_d2b n b p).
Proof.
  unfold handle_d2b.
  apply ro_bind; [apply ro_returns; through|]. intros _.
  apply ro_bind; [apply ro_returns; auto with book|]. intros book.
  apply ro_bind; [|intros; apply ro_returns; auto with book].
  destruct (dict_get n book) as [r|]; [|apply ro_returns; auto with book].
  destruct (birthday r); [|apply ro_returns; auto with book].
  apply ro_bind; [apply ro_returns; intros w; eexists; eexists; reflexivity|].
  intros d.
  apply ro_bind; [|intros; apply ro_returns; auto with book].
  apply ro_lift. apply days_remaining_raises.
Qed.

Lemma ro_handle_search_name n b p :
  raises_only (fun e => e = AttributeError) (handle_search_name n b p).
Proof.
  intros w e. unfold handle_search_name, bind at 1, get_book at 1.
  unfold bind at 1, lift at 1, search_record.
  pose proof (search_items_keys n (address_book w) []) as HS.
  destruct (search_items n (address_book w) []) as [found|e0].
  - assert (Hk : forall k, In k found -> dict_mem k (address_book w) = true).
    { intros k Hin. apply dict_mem_In. destruct (HS k Hin) as [[]|H].
      exact H. }
    unfold bind at 1. destruct (nonempty found).
    + destruct (for_each_lookup_emit found w Hk) as [out E].
      rewrite E. simpl. discriminate.
    + simpl. discriminate.
  - simpl. intros H. injection H as <-. exact HS.
Qed.

(** X1: Whatever the line, a turn of the loop keeps the book well-formed: the
    keys stay pairwise different and every record stays under the value of its
    own name. *)
Theorem turn_keeps_book_ok (line : string) (w : World) :
  book_ok (address_book w) -> book_ok (address_book (snd (turn line w))).
Proof.
  revert w. change (keeps_ok (turn line)). unfold turn.
  destruct (parse_input line (map fst commands_table)) as [[[c n] b] ph].
  apply ko_bind; [apply kb_keeps_ok; auto with book|]. intros _.
  destruct (commands_get c) as [h|] eqn:H;
    [|apply kb_keeps_ok; auto with book].
  apply ko_bind; [|intros; apply kb_keeps_ok; through].
  handler_cases H.
  - apply kb_keeps_ok, kb_handle_help.
  - apply kb_keeps_ok, kb_handle_hello.
  - apply kb_keeps_ok, kb_handle_show_all.
  - apply kb_keeps_ok, kb_handle_show_phones.
  - apply kb_keeps_ok, kb_handle_show_bday.
  - apply kb_keeps_ok, kb_handle_d2b.
  - apply ko_handle_add.
  - apply ko_handle_change.
  - apply ko_handle_delete.
  - apply kb_keeps_ok, kb_handle_search_name.
Qed.

Lemma turn_keeps_book_ok_witness :
  book_ok (address_book
             (snd (turn "add John 12345678901" (mkWorld [] [] (Date 2025 3 11))))).
Proof.
  apply turn_keeps_book_ok. split.
  - constructor.
  - constructor.
Defined.

(** X2: A line whose command is not [add], [change] or [delete], and a line
    with no command at all, leaves the book as it is, also when the handler
    raises. *)
Theorem turn_read_only (line : string) (w : World) :
  writes_book (parsed_command (parse_input line commands)) = false ->
  address_book (snd (turn line w)) = address_book w.
Proof.
  unfold turn. change (map fst commands_table) with commands.
  destruct (parse_input line commands) as [[[c n] b] ph].
  cbn [parsed_command]. intros Hc. revert w.
  match goal with
  | |- forall w, address_book (snd (?m w)) = _ => change (keeps_book m)
  end.
  apply kb_bind; [auto with book|]. intros _.
  destruct (commands_get c) as [h|] eqn:H; [|auto with book].
  apply kb_bind; [|intros; through].
  handler_cases H; try discriminate Hc.
  - apply kb_handle_help.
  - apply kb_handle_hello.
  - apply kb_handle_show_all.
  - apply kb_handle_show_phones.
  - apply kb_handle_show_bday.
  - apply kb_handle_d2b.
  - apply kb_handle_search_name.
Qed.

Lemma turn_read_only_witness :
  address_book (snd (turn "show phones Mary"
                          (mkWorld book_mary [] (Date 2025 3 11))))
  = book_mary.
Proof.
  apply (turn_read_only "show phones Mary"
           (mkWorld book_mary [] (Date 2025 3 11))).
  vm_compute. reflexivity.
Defined.

(** X3: A turn of the loop raises only for the commands [show phones] (a
    [TypeError]), [days to birthday] (a [TypeError] or a [ValueError]) and
    [search name] (an [AttributeError]); for every other line it returns. *)
Theorem turn_raises_only (line : string) (w : World) (e : exn) :
  fst (turn line w) = Raise e ->
  turn_raises (parsed_command (parse_input line commands)) e.
Proof.
  revert w e. unfold turn. change (map fst commands_table) with commands.
  destruct (parse_input line commands) as [[[c n] b] ph].
  cbn [parsed_command].
  match goal with
  | |- forall w e, fst (?m w) = Raise e -> _ =>
      change (raises_only (turn_raises c) m)
  end.
  apply ro_bind; [apply ro_returns; auto with book|]. intros _.
  destruct (commands_get c) as [h|] eqn:H;
    [|apply ro_returns; auto with book].
  apply ro_bind; [|intros; apply ro_returns; through].
  handler_cases H.
  - apply ro_returns, rt_handle_help.
  - apply ro_returns, rt_handle_hello.
  - apply ro_returns, rt_handle_show_all.
  - eapply ro_weaken; [|apply ro_handle_show_phones].
    intros e ->. left. auto.
  - apply ro_returns, rt_handle_show_bday.
  - eapply ro_weaken; [|apply ro_handle_d2b].
    intros e He. right. left. auto.
  - apply ro_returns, rt_handle_add.
  - apply ro_returns, rt_handle_change.
  - apply ro_returns, rt_handle_delete.
  - eapply ro_weaken; [|apply ro_handle_search_name].
    intros e ->. right. right. auto.
Qed.

Lemma turn_raises_only_witness :
  turn_raises (parsed_command (parse_input "search name" commands))
              AttributeError.
Proof.
  apply (turn_raises_only "search name"
           (mkWorld book_mary [] (Date 2025 3 11))).
  vm_compute. reflexivity.
Defined.

(** ** [handle_delete] and [handle_add] on the book *)

Lemma dict_mem_set_same {V} (k : key) (v : V) (d : dict V) :
  dict_mem k (dict_set k v d) = true.
Proof. unfold dict_mem. now rewrite dict_get_set_same. Qed.

Lemma dict_del_set_absent {V} (k : key) (v : V) (d : dict V) :
  dict_get k d = None -> dict_del k (dict_set k v d) = d.
Proof.
  induction d as [|[k' v'] d IH]; simpl.
  - now rewrite val_eqb_refl.
  - destruct (val_eqb k k') eqn:E; [discriminate|]. intros H.
    simpl. rewrite E. now rewrite IH.
Qed.

Lemma Record_init_name (n b : option string) (ps : list (option string)) :
  value (name (Record_init n b ps)) = n.
Proof. now rewrite Record_init_stores. Qed.

(** X4: [delete] removes the entry of the name and nothing else: afterwards
    the name is not in the book, every other name has the record it had, and
    the names that are left are in the order they were in. For a name that is
    not in the book this leaves the book as it is. *)
Theorem handle_delete_removes (name b : option string) (p : list string)
    (w : World) :
  unique_keys (address_book w) ->
  fst (handle_delete name b p w) = Ok None
  /\ dict_get name (address_book (snd (handle_delete name b p w))) = None
  /\ (forall k, k <> name ->
        dict_get k (address_book (snd (handle_delete name b p w)))
        = dict_get k (address_book w))
  /\ dict_keys (address_book (snd (handle_delete name b p w)))
     = filter (fun k => negb (val_eqb name k)) (dict_keys (address_book w)).
Proof.
  intros Hu. rewrite handle_delete_run. cbn [fst snd emit address_book].
  unfold delete_record.
  destruct (dict_mem name (address_book w)) eqn:E.
  - repeat split.
    + now apply dict_get_del_same.
    + intros k Hk. now apply dict_get_del_other.
    + now apply dict_keys_del.
  - assert (G : dict_get name (address_book w) = None).
    { unfold dict_mem in E. now destruct (dict_get name (address_book w)). }
    repeat split; [exact G|].
    rewrite <- (dict_keys_del name Hu). now rewrite dict_del_absent.
Qed.

Lemma handle_delete_removes_witness :
  dict_get (Some "Mary")
    (address_book
       (snd (handle_delete (Some "Mary") None []
               (mkWorld book_mary [] (Date 2025 3 11)))))
  = None.
Proof.
  refine (proj1 (proj2 (@handle_delete_removes (Some "Mary") None []
                          (mkWorld book_mary [] (Date 2025 3 11)) _))).
  unfold unique_keys. simpl. constructor; [simpl; tauto | constructor].
Defined.

(** X5: [add] writes the entry of the name and nothing else: afterwards the
    name has the record built from the arguments of the call, every other name
    has the record it had, and the order of the names is the one before, with
    a name that was not in the book put last. *)
Theorem handle_add_stores (name birthday : option string)
    (phones : list string) (w : World) :
  dict_get name (address_book (snd (handle_add name birthday phones w)))
  = Some (Record_init name birthday (map Some phones))
  /\ (forall k, k <> name ->
        dict_get k (address_book (snd (handle_add name birthday phones w)))
        = dict_get k (address_book w))
  /\ dict_keys (address_book (snd (handle_add name birthday phones w)))
     = if dict_mem name (address_book w) then dict_keys (address_book w)
       else (dict_keys (address_book w) ++ [name])%list.
Proof.
  destruct (handle_add_always_adds name birthday phones w) as (out & E & _).
  rewrite E. cbn [snd address_book]. unfold add_record.
  rewrite Record_init_name. repeat split.
  - apply dict_get_set_same.
  - intros k Hk. now apply dict_get_set_other.
  - apply dict_keys_set.
Qed.

(** X6: Adding a name that is not in the book and deleting it again gives the
    book back as it was, whatever the birthday and the phones of the call. *)
Theorem handle_add_then_delete (name birthday b : option string)
    (phones p : list string) (w : World) :
  dict_mem name (address_book w) = false ->
  address_book
    (snd (handle_delete name b p (snd (handle_add name birthday phones w))))
  = address_book w.
Proof.
  intros Hm.
  destruct (handle_add_always_adds name birthday phones w) as (out & E & _).
  rewrite E. cbn [snd]. rewrite handle_delete_run.
  cbn [snd emit address_book]. unfold delete_record, add_record.
  rewrite Record_init_name, dict_mem_set_same.
  apply dict_del_set_absent.
  unfold dict_mem in Hm. now destruct (dict_get name (address_book w)).
Qed.

Lemma handle_add_then_delete_witness :
  address_book
    (snd (handle_delete (Some "John") None []
            (snd (handle_add (Some "John") (Some "1990/01/01")
                    ["12345678901"]
                    (mkWorld book_mary [] (Date 2025 3 11))))))
  = book_mary.
Proof.
  apply (@handle_add_then_delete (Some "John") (Some "1990/01/01") None
           ["12345678901"] [] (mkWorld book_mary [] (Date 2025 3 11))).
  reflexivity.
Defined.

(** ** The methods of [Record] on phones and on the birthday *)

Lemma edit_phone_loop_absent (ps : list Field) (old : option string)
    (new : string) :
  ~ In old (map value ps) -> edit_phone_loop ps old new = (Ok tt, ps).
Proof.
  induction ps as [|q ps IH]; simpl; intros H; [reflexivity|].
  destruct (val_eqb_spec (value q) old) as [E|_]; [tauto|].
  rewrite IH by tauto. reflexivity.
Qed.

Lemma strptime_Ymd_cases (s : string) :
  (exists bd, strptime_Ymd s = Ok bd)
  \/ (exists msg, strptime_Ymd s = Raise (ValueError msg)).
Proof.
  destruct (strptime_Ymd s) as [bd|e] eqn:E; [eauto|].
  right. apply strptime_Ymd_raises in E. destruct E as [msg ->]. eauto.
Qed.

(** X7: [edit_phone] writes to the first phone that equals the old number, and
    to that one only; the new number goes through the setter of [Phone], and
    when the setter raises the record is as it was. *)
Theorem edit_phone_first_occurrence (self : Record) (old : option string)
    (new : string) (before after : list Field) (p : Field) :
  phones self = (before ++ p :: after)%list ->
  value p = old ->
  ~ In old (map value before) ->
  edit_phone self old new
  = if matches phone_re new
    then (Ok tt, set_phones self (before ++ Phone (Some new) :: after)%list)
    else (Raise (ValueError phone_error), self).
Proof.
  destruct self as [n bd ps]. cbn [phones]. intros -> Hp Hb.
  unfold edit_phone, set_phones. cbn [phones name birthday].
  assert (E : edit_phone_loop (before ++ p :: after)%list old new
              = (let (r, p') := Phone_value_setter p new in
                 (r, (before ++ p' :: after)%list))).
  { induction before as [|q before IH]; simpl.
    - rewrite Hp, val_eqb_refl. reflexivity.
    - simpl in Hb. destruct (val_eqb_spec (value q) old) as [E|_]; [tauto|].
      rewrite IH by tauto. now destruct (Phone_value_setter p new). }
  rewrite E. unfold Phone_value_setter.
  destruct (matches phone_re new); reflexivity.
Qed.

Lemma edit_phone_first_occurrence_witness :
  edit_phone
    (Record_init (Some "Mary") None
       [Some "11111111111"; Some "22222222222"; Some "22222222222"])
    (Some "22222222222") "33333333333"
  = (Ok tt,
     Record_init (Some "Mary") None
       [Some "11111111111"; Some "33333333333"; Some "22222222222"]).
Proof.
  apply (@edit_phone_first_occurrence
           (Record_init (Some "Mary") None
              [Some "11111111111"; Some "22222222222"; Some "22222222222"])
           (Some "22222222222") "33333333333"
           [Phone (Some "11111111111")] [Phone (Some "22222222222")]
           (Phone (Some "22222222222"))).
  - reflexivity.
  - reflexivity.
  - simpl. intros [H|[]]. discriminate H.
Defined.

(** X8: [edit_phone] with an old number that the record does not hold returns
    and leaves the record as it is; the new number is not looked at, so no
    error is raised for one that is not a phone number. *)
Theorem edit_phone_absent (self : Record) (old : option string)
    (new : string) :
  ~ In old (show_phones self) -> edit_phone self old new = (Ok tt, self).
Proof.
  destruct self as [n bd ps]. unfold show_phones, edit_phone.
  cbn [phones name birthday]. intros H.
  now rewrite edit_phone_loop_absent.
Qed.

Lemma edit_phone_absent_witness :
  edit_phone record_mary (Some "00000000000") "not a number"
  = (Ok tt, record_mary).
Proof.
  apply edit_phone_absent. simpl. intros [H|[]]. discriminate H.
Defined.

(** X9: [delete_phone] removes every phone that equals the number, not only
    the first: the number is not among the phones afterwards, the other phones
    stay in their order, and a second call changes nothing. *)
Theorem delete_phone_removes_all (self : Record) (phone : option string) :
  ~ In phone (show_phones (delete_phone self phone))
  /\ show_phones (delete_phone self phone)
     = filter (fun v => negb (val_eqb v phone)) (show_phones self)
  /\ delete_phone (delete_phone self phone) phone = delete_phone self phone.
Proof.
  destruct self as [n bd ps]. unfold show_phones, delete_phone.
  cbn [phones name birthday].
  assert (E : map value (filter (fun p => negb (val_eqb (value p) phone)) ps)
              = filter (fun v => negb (val_eqb v phone)) (map value ps)).
  { induction ps as [|q ps IH]; simpl; [reflexivity|].
    destruct (val_eqb (value q) phone); simpl; now rewrite IH. }
  split; [|split].
  - rewrite E, filter_In. intros [_ H]. now rewrite val_eqb_refl in H.
  - exact E.
  - f_equal. apply forallb_filter_id. apply forallb_forall.
    intros q Hq. apply filter_In in Hq. tauto.
Qed.

(** X10: [edit_birthday] checks the new date only when the record already has
    a birthday: a record without one takes any string, a record with one takes
    exactly the texts that [strptime] accepts, and on a text that is refused
    the call raises and the record is as it was. *)
Theorem edit_birthday_checks_when_present (self : Record) (s : string) :
  (fst (edit_birthday self s) = Ok tt
   <-> birthday self = None \/ accepted_date_text s)
  /\ (fst (edit_birthday self s) = Ok tt ->
      show_birthday (snd (edit_birthday self s)) = Some s)
  /\ (fst (edit_birthday self s) <> Ok tt ->
      fst (edit_birthday self s) = Raise (ValueError birthday_error)
      /\ snd (edit_birthday self s) = self).
Proof.
  destruct self as [n bd ps]. unfold edit_birthday, show_birthday.
  cbn [birthday name phones]. destruct bd as [b|].
  - unfold Birthday_value_setter.
    destruct (strptime_Ymd_cases s) as [[d E]|[msg E]]; rewrite E;
      cbn [fst snd birthday value _value].
    + repeat split; try congruence.
      intros _. right. apply strptime_Ymd_spec. eauto.
    + repeat split; try congruence.
      intros [H|H]; [discriminate H|].
      apply strptime_Ymd_spec in H. destruct H as [d H]. congruence.
  - cbn [fst snd birthday value _value Birthday Field_init].
    repeat split; try congruence. auto.
Qed.

(** ** The searches that raise *)

Lemma search_items_cases (query : option string)
    (items : list (key * Record)) (found : list key) :
  (search_raises items query
   /\ search_items query items found = Raise AttributeError)
  \/ (~ search_raises items query
      /\ exists l, search_items query items found = Ok l).
Proof.
  unfold search_raises, dict_keys. revert found.
  induction items as [|[n r] items IH]; intros found; simpl.
  - right. split; [|eauto]. intros [[_ H]|[]]. now apply H.
  - destruct query as [q|]; simpl.
    + destruct n as [n|]; simpl; [|left; auto].
      match goal with
      | |- context [search_items _ _ ?f] => destruct (IH f) as [[H E]|[H E]]
      end.
      * left. split; [|exact E]. destruct H as [[H _]|H]; [discriminate|].
        auto.
      * right. split; [|exact E]. intros [[H' _]|[H'|H']];
          [discriminate | discriminate | apply H; auto].
    + left. split; [left; split; [reflexivity | discriminate] | reflexivity].
Qed.

Lemma handle_search_name_fst (query b : option string) (p : list string)
    (w : World) :
  fst (handle_search_name query b p w)
  = match search_record (address_book w) query with
    | Ok _ => Ok None
    | Raise e => Raise e
    end.
Proof.
  pose proof (search_items_keys query (address_book w) []) as HS.
  unfold handle_search_name, bind at 1, get_book at 1.
  unfold bind at 1, lift at 1, search_record.
  destruct (search_items query (address_book w) []) as [found|e];
    [|reflexivity].
  assert (Hk : forall n, In n found -> dict_mem n (address_book w) = true).
  { intros n Hin. apply dict_mem_In. destruct (HS n Hin) as [[]|H]. exact H. }
  unfold bind at 1. destruct (nonempty found).
  - destruct (for_each_lookup_emit found w Hk) as [out E].
    rewrite E. reflexivity.
  - reflexivity.
Qed.

Lemma handle_search_name_cases (query b : option string) (p : list string)
    (w : World) :
  (search_raises (address_book w) query
   /\ fst (handle_search_name query b p w) = Raise AttributeError)
  \/ (~ search_raises (address_book w) query
      /\ fst (handle_search_name query b p w) = Ok None).
Proof.
  rewrite handle_search_name_fst. unfold search_record.
  destruct (search_items_cases query (address_book w) []) as [[H E]|[H [l E]]];
    rewrite E; auto.
Qed.

(** X11: [search name] raises [AttributeError] in exactly two cases: the line
    gives no query and the book is not empty, or the book holds a record under
    [None]; in every other case the handler returns. *)
Theorem handle_search_name_raises (query b : option string)
    (p : list string) (w : World) :
  (fst (handle_search_name query b p w) = Raise AttributeError
   <-> search_raises (address_book w) query)
  /\ (fst (handle_search_name query b p w) = Ok None
      <-> ~ search_raises (address_book w) query).
Proof.
  destruct (handle_search_name_cases query b p w) as [[H E]|[H E]];
    rewrite E; split; split; try tauto; try discriminate.
Qed.

(** X12: A line [add] in which no argument is a name stores a record under
    [None], and from then on every search raises [AttributeError], whatever
    the query. *)
Theorem add_without_name_breaks_search (line : string) (b : option string)
    (ph : list string) (w : World) (q b' : option string)
    (p' : list string) :
  parse_input line commands = (Some "add", None, b, Some ph) ->
  fst (handle_search_name q b' p' (snd (turn line w))) = Raise AttributeError.
Proof.
  intros Hp.
  destruct (handle_search_name_cases q b' p' (snd (turn line w)))
    as [[_ E]|[H _]]; [exact E|].
  exfalso. apply H. right. apply dict_mem_In.
  unfold turn. change (map fst commands_table) with commands. rewrite Hp.
  change (commands_get (Some "add")) with (Some handle_add).
  unfold bind at 1, print at 1. rewrite write_emit.
  unfold bind at 1.
  match goal with
  | |- context [handle_add None b ph ?w1] =>
      destruct (handle_add_always_adds None b ph w1) as (out & E & _);
      rewrite E
  end.
  cbn [truthy when ret snd address_book emit]. unfold add_record.
  rewrite Record_init_name. apply dict_mem_set_same.
Qed.

Lemma add_without_name_breaks_search_witness :
  fst (handle_search_name (Some "mary") None []
         (snd (turn "add 12345678901"
                 (mkWorld book_mary [] (Date 2025 3 11)))))
  = Raise AttributeError.
Proof.
  apply (@add_without_name_breaks_search "add 12345678901" None
           ["12345678901"]).
  vm_compute. reflexivity.
Defined.

(** ** The book and its file *)





Lemma load_from_csv_fold (rows : list row) (acc : AddressBook) :
  load_from_csv acc rows
  = match records_of rows with
    | Some recs => Some (fold_left add_record recs acc)
    | None => None
    end.
Proof.
  revert acc. induction rows as [|r rows IH]; intros acc; simpl.
  - reflexivity.
  - destruct (from_row r) as [x|]; [|reflexivity].
    rewrite IH. now destruct (records_of rows).
Qed.

Lemma dict_get_set {V} (k k0 : key) (v : V) (d : dict V) :
  dict_get k0 (dict_set k v d)
  = if val_eqb k0 k then Some v else dict_get k0 d.
Proof.
  destruct (val_eqb_spec k0 k) as [->|Hne].
  - apply dict_get_set_same.
  - now apply dict_get_set_other.
Qed.

Lemma fold_add_get (recs : list Record) (acc : AddressBook) (k : key) :
  dict_get k (fold_left add_record recs acc)
  = match last_record k recs with
    | Some r => Some r
    | None => dict_get k acc
    end.
Proof.
  revert acc. induction recs as [|r recs IH]; intros acc; simpl.
  - reflexivity.
  - rewrite IH. destruct (last_record k recs); [reflexivity|].
    unfold add_record. rewrite dict_get_set.
    now destruct (val_eqb k (value (name r))).
Qed.

Lemma fold_add_unique (recs : list Record) (acc : AddressBook) :
  unique_keys acc -> unique_keys (fold_left add_record recs acc).
Proof.
  revert acc. induction recs as [|r recs IH]; intros acc H; simpl.
  - exact H.
  - apply IH. now apply unique_keys_set.
Qed.

Lemma fold_add_keys (recs : list Record) (acc : AddressBook) :
  (forall r, In r recs -> dict_mem (value (name r)) acc = true) ->
  dict_keys (fold_left add_record recs acc) = dict_keys acc.
Proof.
  revert acc. induction recs as [|r recs IH]; intros acc H; simpl.
  - reflexivity.
  - assert (E : dict_keys (add_record acc r) = dict_keys acc).
    { apply dict_keys_set_present. apply H. now left. }
    rewrite IH; [exact E|].
    intros r' Hr'. apply dict_mem_In. rewrite E. apply dict_mem_In.
    apply H. now right.
Qed.

Lemma last_record_In (recs : list Record) (r : Record) :
  In r recs -> exists r', last_record (value (name r)) recs = Some r'.
Proof.
  induction recs as [|x recs IH]; simpl; [tauto|].
  intros [->|H].
  - destruct (last_record _ recs); [eauto|].
    rewrite val_eqb_refl. eauto.
  - destruct (IH H) as [r' ->]. eauto.
Qed.

Lemma fold_add_twice (recs : list Record) :
  fold_left add_record recs (fold_left add_record recs [])
  = fold_left add_record recs [].
Proof.
  assert (Hu : unique_keys (fold_left add_record recs [])).
  { apply fold_add_unique. constructor. }
  apply dict_ext.
  - now apply fold_add_unique.
  - apply fold_add_keys. intros r Hr. unfold dict_mem.
    rewrite fold_add_get. destruct (last_record_In _ _ Hr) as [r' ->].
    reflexivity.
  - intros k. rewrite !fold_add_get. now destruct (last_record k recs).
Qed.

(** X14: Loading a file a second time into the book that the first load gave
    changes nothing: [Bot.__init__] and [main] both load the file, and the
    book after the two loads is the book after the first. *)
Theorem load_from_csv_twice (rows : list row) (book : AddressBook) :
  load_from_csv [] rows = Some book -> load_from_csv book rows = Some book.
Proof.
  rewrite !load_from_csv_fold.
  destruct (records_of rows) as [recs|]; [|discriminate].
  intros H. injection H as <-. now rewrite fold_add_twice.
Qed.

Lemma load_from_csv_twice_witness :
  load_from_csv book_bob [("Bob Smith", "", "['55512340001']")]
  = Some book_bob.
Proof.
  apply load_from_csv_twice. vm_compute. reflexivity.
Defined.

(** ** [parse_input]: the command *)

Lemma prefix_append (p s : string) :
  String.prefix p s = true -> exists r, s = (p ++ r)%string.
Proof.
  revert s. induction p as [|a p IH]; intros s.
  - intros _. exists s. reflexivity.
  - destruct s as [|b s]; simpl; [discriminate|].
    destruct (ascii_dec a b) as [->|]; [|discriminate].
    intros H. destruct (IH _ H) as [r ->]. exists r. reflexivity.
Qed.

Lemma parsed_command_find (line : string) (cmds : list string) :
  parsed_command (parse_input line cmds)
  = find (fun key => startswith (lower line) (lower key)) cmds.
Proof.
  unfold parse_input.
  destruct (find _ cmds) as [c|]; [|reflexivity].
  match goal with
  | |- context [fold_left classify ?a ?i] =>
      destruct (fold_left classify a i) as [[? ?] ?]
  end.
  reflexivity.
Qed.

(** X15: The command of a line is the keyword that the lowered line starts
    with: no keyword starts another, so at most one keyword fits and the order
    in which the keys are tried does not matter. Nothing is asked of what
    follows the keyword, not even a blank. *)
Theorem parse_input_command (line k : string) :
  parsed_command (parse_input line commands) = Some k
  <-> In k commands /\ startswith (lower line) k = true.
Proof.
  rewrite parsed_command_find. split.
  - intros H. apply find_some in H. destruct H as [Hin H].
    split; [exact Hin|]. unfold commands in Hin. simpl in Hin.
    repeat (destruct Hin as [<-|Hin]; [exact H|]). destruct Hin.
  - intros [Hin H]. unfold startswith in H. apply prefix_append in H.
    destruct H as [r E]. rewrite E. unfold commands in Hin. simpl in Hin.
    repeat (destruct Hin as [<-|Hin];
            [destruct r; vm_compute; reflexivity|]).
    destruct Hin.
Qed.

(** ** The matcher on [^], [$] and the loops of [*] and [*?] *)

Section MatcherLoops.

Context {A : Type}.
Implicit Types (k : string -> mstate -> option A) (st : mstate).

Lemma orelse_Some (a b : option A) (x : A) :
  orelse a b = Some x -> a = Some x \/ b = Some x.
Proof. destruct a; simpl; auto. Qed.

Lemma rmatch_Bol_inv st k (x : A) :
  rmatch Bol st k = Some x -> pos st = 0 /\ k "" st = Some x.
Proof.
  simpl. destruct (Nat.eqb_spec (pos st) 0); [auto | discriminate].
Qed.

Lemma rmatch_Eol_inv st k (x : A) :
  rmatch Eol st k = Some x ->
  (rest st = "" \/ rest st = NL) /\ k "" st = Some x.
Proof.
  cbn [rmatch]. destruct (rest st) as [|c [|c' r]]; cbn [at_eol];
    try discriminate; auto.
  destruct (is_char LF c) eqn:E; [|discriminate].
  apply is_char_true in E. subst c. auto.
Qed.

Lemma star_loop_eq (p : ascii -> bool) k (n : nat) (acc : string) st0 :
  (fix loop (n : nat) (acc : string) (st0 : mstate) : option A :=
     match n with
     | O => k acc st0
     | S n' =>
         orelse
           (rmatch (Chr p) st0 (fun m st1 =>
              if Nat.ltb (pos st0) (pos st1)
              then loop n' (acc ++ m)%string st1 else None))
           (k acc st0)
     end) n acc st0
  = star_chr_loop p k n acc st0.
Proof.
  revert acc st0. induction n as [|n IH]; intros acc st0; [reflexivity|].
  cbn [star_chr_loop]. f_equal.
  cbn [rmatch]. destruct (rest st0) as [|c s']; [reflexivity|].
  destruct (p c); [|reflexivity].
  destruct (Nat.ltb _ _); [|reflexivity]. apply IH.
Qed.

Lemma lazy_loop_eq (p : ascii -> bool) k (n : nat) (acc : string) st0 :
  (fix loop (n : nat) (acc : string) (st0 : mstate) : option A :=
     match n with
     | O => k acc st0
     | S n' =>
         orelse
           (k acc st0)
           (rmatch (Chr p) st0 (fun m st1 =>
              if Nat.ltb (pos st0) (pos st1)
              then loop n' (acc ++ m)%string st1 else None))
     end) n acc st0
  = lazy_chr_loop p k n acc st0.
Proof.
  revert acc st0. induction n as [|n IH]; intros acc st0; [reflexivity|].
  cbn [lazy_chr_loop]. f_equal.
  cbn [rmatch]. destruct (rest st0) as [|c s']; [reflexivity|].
  destruct (p c); [|reflexivity].
  destruct (Nat.ltb _ _); [|reflexivity]. apply IH.
Qed.

Lemma rmatch_Star_Chr (p : ascii -> bool) st k :
  rmatch (Star (Chr p)) st k
  = star_chr_loop p k (String.length (rest st)) "" st.
Proof. exact (star_loop_eq p k _ _ _). Qed.

Lemma rmatch_StarLazy_Chr (p : ascii -> bool) st k :
  rmatch (StarLazy (Chr p)) st k
  = lazy_chr_loop p k (String.length (rest st)) "" st.
Proof. exact (lazy_loop_eq p k _ _ _). Qed.

(** Whatever a loop hands to its continuation is a run of characters of the
    class, taken from the front of what was left of the string. *)
Lemma star_chr_loop_sound (p : ascii -> bool) k (n : nat) (acc : string)
    st0 (x : A) :
  star_chr_loop p k n acc st0 = Some x ->
  exists m st',
    k (acc ++ m)%string st' = Some x /\ all_chars p m = true
    /\ rest st0 = (m ++ rest st')%string.
Proof.
  revert acc st0. induction n as [|n IH]; intros acc st0; cbn [star_chr_loop].
  - intros H. exists "", st0. rewrite append_empty_r. auto.
  - intros H. apply orelse_Some in H. destruct H as [H|H].
    + apply rmatch_Chr_inv in H. destruct H as (c & s' & Hr & Hc & H).
      destruct (Nat.ltb _ _); [|discriminate].
      apply IH in H. destruct H as (m & st' & H & Hm & Hrest).
      exists (String c m), st'. rewrite append_assoc in H.
      cbn [rest append] in Hrest, H. simpl. rewrite Hc, Hm, Hr, Hrest. auto.
    + exists "", st0. rewrite append_empty_r. auto.
Qed.

Lemma lazy_chr_loop_sound (p : ascii -> bool) k (n : nat) (acc : string)
    st0 (x : A) :
  lazy_chr_loop p k n acc st0 = Some x ->
  exists m st',
    k (acc ++ m)%string st' = Some x /\ all_chars p m = true
    /\ rest st0 = (m ++ rest st')%string.
Proof.
  revert acc st0. induction n as [|n IH]; intros acc st0; cbn [lazy_chr_loop].
  - intros H. exists "", st0. rewrite append_empty_r. auto.
  - intros H. apply orelse_Some in H. destruct H as [H|H].
    + exists "", st0. rewrite append_empty_r. auto.
    + apply rmatch_Chr_inv in H. destruct H as (c & s' & Hr & Hc & H).
      destruct (Nat.ltb _ _); [|discriminate].
      apply IH in H. destruct H as (m & st' & H & Hm & Hrest).
      exists (String c m), st'. rewrite append_assoc in H.
      cbn [rest append] in Hrest, H. simpl. rewrite Hc, Hm, Hr, Hrest. auto.
Qed.

End MatcherLoops.

Lemma name_re_sound (s : string) :
  matches name_re s = true ->
  exists m, m <> "" /\ all_chars name_char m = true
            /\ (s = m \/ s = (m ++ NL)%string).
Proof.
  unfold matches, re_match, match_at.
  destruct (rmatch name_re _ _) as [x|] eqn:H; [intros _|discriminate].
  unfold name_re, Plus in H.
  rewrite rmatch_Seq in H. apply rmatch_Bol_inv in H. destruct H as [_ H].
  rewrite !rmatch_Seq in H.
  apply rmatch_Chr_inv in H. destruct H as (c & s' & Hr & Hc & H).
  rewrite rmatch_Star_Chr in H. apply star_chr_loop_sound in H.
  destruct H as (m & st' & H & Hm & Hrest).
  apply rmatch_Eol_inv in H. destruct H as [He _].
  cbn [rest] in Hr, Hrest. subst s s'. exists (String c m).
  split; [discriminate|]. split; [simpl; now rewrite Hc, Hm|].
  destruct He as [-> | ->]; [left | right]; simpl.
  - now rewrite append_empty_r.
  - reflexivity.
Qed.

Lemma birthday_re_sound (s : string) :
  matches birthday_re s = true ->
  exists Y M D,
    String.length Y = 4 /\ String.length M = 2 /\ String.length D = 2
    /\ all_chars is_decimal Y = true /\ all_chars is_decimal M = true
    /\ all_chars is_decimal D = true
    /\ (s = (Y ++ "/" ++ M ++ "/" ++ D)%string
        \/ s = (Y ++ "/" ++ M ++ "/" ++ D ++ NL)%string).
Proof.
  unfold matches, re_match, match_at.
  destruct (rmatch birthday_re _ _) as [x|] eqn:H; [intros _|discriminate].
  unfold birthday_re, Lit in H.
  rewrite rmatch_Seq in H. apply rmatch_Bol_inv in H. destruct H as [_ H].
  rewrite rmatch_Seq, rmatch_Rep_Chr in H. cbn [rest pos groups] in H.
  destruct (take_class 4 is_decimal s) as [[Y r1]|] eqn:HY; [|discriminate].
  apply take_class_spec in HY. destruct HY as (-> & HlY & HaY).
  rewrite rmatch_Seq in H. apply rmatch_Chr_inv in H.
  destruct H as (c1 & r2 & Hr1 & Hc1 & H). cbn [rest pos groups] in Hr1, H.
  apply is_char_true in Hc1. subst c1 r1.
  rewrite rmatch_Seq, rmatch_Rep_Chr in H. cbn [rest pos groups] in H.
  destruct (take_class 2 is_decimal r2) as [[M r3]|] eqn:HM; [|discriminate].
  apply take_class_spec in HM. destruct HM as (-> & HlM & HaM).
  rewrite rmatch_Seq in H. apply rmatch_Chr_inv in H.
  destruct H as (c2 & r4 & Hr3 & Hc2 & H). cbn [rest pos groups] in Hr3, H.
  apply is_char_true in Hc2. subst c2 r3.
  rewrite rmatch_Seq, rmatch_Rep_Chr in H. cbn [rest pos groups] in H.
  destruct (take_class 2 is_decimal r4) as [[D r5]|] eqn:HD; [|discriminate].
  apply take_class_spec in HD. destruct HD as (-> & HlD & HaD).
  apply rmatch_Eol_inv in H. destruct H as [He _]. cbn [rest] in He.
  exists Y, M, D. repeat (split; [assumption|]).
  destruct He as [-> | ->]; [left | right].
  - now rewrite append_empty_r.
  - reflexivity.
Qed.

(** ** [parse_input]: the arguments *)

Lemma all_chars_append (p : ascii -> bool) (a b : string) :
  all_chars p (a ++ b) = all_chars p a && all_chars p b.
Proof.
  induction a as [|c a IH]; simpl; [reflexivity|].
  now rewrite IH, andb_assoc.
Qed.

Lemma all_chars_weaken (p q : ascii -> bool) (s : string) :
  (forall c, p c = true -> q c = true) ->
  all_chars p s = true -> all_chars q s = true.
Proof.
  intros H. induction s as [|c s IH]; simpl; [reflexivity|].
  rewrite !andb_true_iff. intros [Hc Hs]. auto.
Qed.

Lemma all_chars_lstrip_by (p q : ascii -> bool) (s : string) :
  all_chars p s = true -> all_chars p (lstrip_by q s) = true.
Proof.
  induction s as [|c s IH]; simpl; [reflexivity|].
  rewrite andb_true_iff. intros [Hc Hs].
  destruct (q c); [auto|]. simpl. now rewrite Hc, Hs.
Qed.

Lemma all_chars_rev_onto (p : ascii -> bool) (s acc : string) :
  all_chars p s = true -> all_chars p acc = true ->
  all_chars p (rev_onto s acc) = true.
Proof.
  revert acc. induction s as [|c s IH]; simpl; intros acc; [auto|].
  rewrite andb_true_iff. intros [Hc Hs] Ha. apply IH; [exact Hs|].
  simpl. now rewrite Hc, Ha.
Qed.

Lemma all_chars_strip_by (p q : ascii -> bool) (s : string) :
  all_chars p s = true -> all_chars p (strip_by q s) = true.
Proof.
  intros H. unfold strip_by, rev.
  apply all_chars_rev_onto; [|reflexivity].
  apply all_chars_lstrip_by. apply all_chars_rev_onto; [|reflexivity].
  now apply all_chars_lstrip_by.
Qed.

Lemma all_chars_unquote (p : ascii -> bool) (arg : string) :
  all_chars p arg = true -> all_chars p (unquote arg) = true.
Proof.
  intros H. unfold unquote. destruct arg as [|c arg]; [exact H|].
  destruct (mem_char c quote_chars); [|exact H].
  now apply all_chars_strip_by.
Qed.

Lemma not_space_dot (c : ascii) : negb (is_space c) = true -> dot c = true.
Proof.
  unfold dot. destruct (is_char LF c) eqn:E; [|reflexivity].
  apply is_char_true in E. subst c. vm_compute. auto.
Qed.

(** No span that the pattern of arguments matches holds a line feed. *)
Lemma arguments_re_dot (p : nat) (s m : string) (st : mstate) :
  match_at arguments_re p s = Some (m, st) -> all_chars dot m = true.
Proof.
  unfold match_at, arguments_re, Plus, Lit. intros H.
  apply rmatch_Alt_inv in H. destruct H as [H|H];
    [|apply rmatch_Alt_inv in H; destruct H as [H|H]].
  - rewrite rmatch_Seq in H. apply rmatch_Chr_inv in H.
    destruct H as (c1 & r1 & _ & Hc1 & H).
    rewrite rmatch_Seq, rmatch_StarLazy_Chr in H.
    apply lazy_chr_loop_sound in H. destruct H as (m1 & st1 & H & Hm1 & _).
    apply rmatch_Chr_inv in H. destruct H as (c2 & r2 & _ & Hc2 & H).
    injection H as <- _. apply is_char_true in Hc1, Hc2. subst c1 c2.
    cbn [append all_chars]. rewrite all_chars_append, Hm1. reflexivity.
  - rewrite rmatch_Seq in H. apply rmatch_Chr_inv in H.
    destruct H as (c1 & r1 & _ & Hc1 & H).
    rewrite rmatch_Seq, rmatch_StarLazy_Chr in H.
    apply lazy_chr_loop_sound in H. destruct H as (m1 & st1 & H & Hm1 & _).
    apply rmatch_Chr_inv in H. destruct H as (c2 & r2 & _ & Hc2 & H).
    injection H as <- _. apply is_char_true in Hc1, Hc2. subst c1 c2.
    cbn [append all_chars]. rewrite all_chars_append, Hm1. reflexivity.
  - rewrite rmatch_Seq in H. apply rmatch_Chr_inv in H.
    destruct H as (c1 & r1 & _ & Hc1 & H).
    rewrite rmatch_Star_Chr in H.
    apply star_chr_loop_sound in H. destruct H as (m1 & st1 & H & Hm1 & _).
    injection H as <- _. cbn [append all_chars].
    rewrite (not_space_dot _ Hc1).
    apply (all_chars_weaken _ dot) in Hm1; [exact Hm1|].
    exact not_space_dot.
Qed.

Lemma findall_from_dot (fuel p : nat) (s : string) :
  Forall (fun arg => all_chars dot arg = true)
         (findall_from fuel arguments_re p s).
Proof.
  revert p s. induction fuel as [|fuel IH]; intros p s; simpl; [constructor|].
  destruct (match_at arguments_re p s) as [[[|c m] st]|] eqn:E.
  - constructor; [reflexivity|]. destruct s; [constructor | apply IH].
  - constructor; [|apply IH]. exact (arguments_re_dot _ _ E).
  - destruct s; [constructor | apply IH].
Qed.

Lemma arguments_of_dot (line command : string) :
  Forall (fun arg => all_chars dot arg = true) (arguments_of line command).
Proof.
  unfold arguments_of, findall. apply Forall_map.
  eapply Forall_impl; [|apply findall_from_dot].
  intros a. apply all_chars_unquote.
Qed.

Lemma name_char_not_decimal (c : ascii) :
  name_char c = true -> is_decimal c = false.
Proof.
  destruct c as [[] [] [] [] [] [] [] []]; vm_compute; intros H;
    first [reflexivity | discriminate H].
Qed.

Lemma name_re_first (s : string) :
  matches name_re s = true ->
  exists c r, s = String c r /\ name_char c = true.
Proof.
  intros H. apply name_re_sound in H. destruct H as (m & Hne & Ha & Hs).
  destruct m as [|c m]; [congruence|]. simpl in Ha.
  apply andb_true_iff in Ha. destruct Ha as [Hc _].
  destruct Hs as [-> | ->]; simpl; eauto.
Qed.

Lemma phone_re_first (s : string) :
  matches phone_re s = true ->
  exists c0 c1 c2 c3 c4 r,
    s = String c0 (String c1 (String c2 (String c3 (String c4 r))))
    /\ is_decimal c0 = true /\ is_decimal c4 = true.
Proof.
  intros H. apply phone_re_spec in H. destruct H as (t & Hl & Ha & Hs).
  destruct t as [|c0 [|c1 [|c2 [|c3 [|c4 t]]]]]; try discriminate Hl.
  simpl in Ha. rewrite !andb_true_iff in Ha.
  destruct Ha as (H0 & _ & _ & _ & H4 & _).
  destruct Hs as [-> | ->]; simpl; eauto 10.
Qed.

Lemma birthday_re_first (s : string) :
  matches birthday_re s = true ->
  exists c0 c1 c2 c3 r,
    s = String c0 (String c1 (String c2 (String c3 (String "/" r))))
    /\ is_decimal c0 = true.
Proof.
  intros H. apply birthday_re_sound in H.
  destruct H as (Y & M & D & HlY & _ & _ & HaY & _ & _ & Hs).
  destruct Y as [|c0 [|c1 [|c2 [|c3 [|c4 t]]]]]; try discriminate HlY.
  simpl in HaY. apply andb_true_iff in HaY. destruct HaY as [H0 _].
  destruct Hs as [-> | ->]; simpl; eauto 10.
Qed.

Lemma name_not_birthday (s : string) :
  matches name_re s = true -> matches birthday_re s = false.
Proof.
  intros H. destruct (matches birthday_re s) eqn:B; [|reflexivity].
  apply name_re_first in H. destruct H as (c & r & -> & Hc).
  apply birthday_re_first in B. destruct B as (c0 & ? & ? & ? & ? & E & H0).
  injection E as -> _. apply name_char_not_decimal in Hc. congruence.
Qed.

Lemma name_not_phone (s : string) :
  matches name_re s = true -> matches phone_re s = false.
Proof.
  intros H. destruct (matches phone_re s) eqn:B; [|reflexivity].
  apply name_re_first in H. destruct H as (c & r & -> & Hc).
  apply phone_re_first in B.
  destruct B as (c0 & ? & ? & ? & ? & ? & E & H0 & _).
  injection E as -> _. apply name_char_not_decimal in Hc. congruence.
Qed.

Lemma birthday_not_phone (s : string) :
  matches birthday_re s = true -> matches phone_re s = false.
Proof.
  intros H. destruct (matches phone_re s) eqn:B; [|reflexivity].
  apply birthday_re_first in H. destruct H as (? & ? & ? & ? & ? & -> & _).
  apply phone_re_first in B.
  destruct B as (? & ? & ? & ? & c4 & ? & E & _ & H4).
  injection E as _ _ _ _ <- _. vm_compute in H4. discriminate H4.
Qed.

(** The loop of [parse_input] over the arguments, in closed form: the three
    patterns exclude each other, so each argument is looked at by its own
    pattern only. *)
Lemma fold_classify (args : list string) (n0 b0 : option string)
    (p0 : list string) :
  fold_left classify args (n0, b0, p0)
  = (last_match name_re args n0, last_match birthday_re args b0,
     (p0 ++ filter (matches phone_re) args)%list).
Proof.
  unfold last_match. revert n0 b0 p0.
  induction args as [|a args IH]; intros n0 b0 p0; cbn [fold_left filter].
  - now rewrite app_nil_r.
  - unfold classify at 2. destruct (matches name_re a) eqn:N.
    + rewrite (name_not_birthday _ N), (name_not_phone _ N). apply IH.
    + destruct (matches birthday_re a) eqn:B.
      * rewrite (birthday_not_phone _ B). apply IH.
      * destruct (matches phone_re a); rewrite IH; [|reflexivity].
        now rewrite <- app_assoc.
Qed.

Lemma parse_input_find (line command : string) :
  find (fun key => startswith (lower line) (lower key)) commands
  = Some command ->
  parse_input line commands
  = (Some command,
     last_match name_re (arguments_of line command) None,
     last_match birthday_re (arguments_of line command) None,
     Some (filter (matches phone_re) (arguments_of line command))).
Proof.
  intros H. unfold parse_input. rewrite H. cbv zeta.
  change (map unquote
            (findall arguments_re
               (strip (drop (String.length command) line))))
    with (arguments_of line command).
  now rewrite fold_classify.
Qed.

(** X16: The arguments of a line are sorted by their shape, wherever they
    stand: the name of the call is the last argument made of letters, hyphens
    and blanks, the birthday is the last argument of the shape of a date, the
    phones are all the arguments of eleven digits, in their order. An earlier
    name or birthday is dropped, and so is every argument of another shape. *)
Theorem parse_input_arguments (line command : string) :
  parsed_command (parse_input line commands) = Some command ->
  parse_input line commands
  = (Some command,
     last_match name_re (arguments_of line command) None,
     last_match birthday_re (arguments_of line command) None,
     Some (filter (matches phone_re) (arguments_of line command))).
Proof.
  rewrite parsed_command_find. apply parse_input_find.
Qed.

Lemma parse_input_arguments_witness :
  parse_input "add John 12345678901 Mary 1/2/3" commands
  = (Some "add", Some "Mary", None, Some ["12345678901"]).
Proof.
  apply (@parse_input_arguments "add John 12345678901 Mary 1/2/3" "add").
  vm_compute. reflexivity.
Defined.

Lemma last_match_In (r : regex) (l : list string) (start : option string)
    (a : string) :
  last_match r l start = Some a ->
  (In a l /\ matches r a = true) \/ start = Some a.
Proof.
  unfold last_match. revert start.
  induction l as [|x l IH]; intros start; simpl; [auto|].
  intros H. apply IH in H. destruct H as [[H1 H2]|H]; [auto|].
  destruct (matches r x) eqn:E; [|auto].
  injection H as <-. auto.
Qed.

Lemma dot_append_NL (m : string) : all_chars dot (m ++ NL) = true -> False.
Proof.
  rewrite all_chars_append, andb_true_iff. intros [_ H].
  vm_compute in H. discriminate H.
Qed.

(** X17: What [parse_input] hands to a handler has the shape that its patterns
    ask for, and nothing more: a name is a run of letters, hyphens and blanks
    that is not empty, a birthday is four digits, a slash, two digits, a slash
    and two digits, and every phone is eleven digits. No argument holds a line
    feed, so the line feed that [$] lets through is not met here. *)
Theorem parse_input_well_formed (line : string)
    (command name birthday : option string) (phones : option (list string)) :
  parse_input line commands = (command, name, birthday, phones) ->
  (forall n, name = Some n -> n <> "" /\ all_chars name_char n = true)
  /\ (forall b, birthday = Some b -> strict_YMD b)
  /\ (forall l p, phones = Some l -> In p l ->
        String.length p = 11 /\ all_chars is_decimal p = true).
Proof.
  destruct (find (fun key => startswith (lower line) (lower key)) commands)
    as [c|] eqn:F.
  - rewrite (parse_input_find _ F). intros H.
    injection H as _ <- <- <-.
    pose proof (arguments_of_dot line c) as Hdot.
    rewrite Forall_forall in Hdot. split; [|split].
    + intros n Hn. apply last_match_In in Hn.
      destruct Hn as [[Hin Hm]|Hn]; [|discriminate Hn].
      apply Hdot in Hin. apply name_re_sound in Hm.
      destruct Hm as (m & Hne & Ha & [-> | ->]); [auto|].
      exfalso. exact (dot_append_NL _ Hin).
    + intros b Hb. apply last_match_In in Hb.
      destruct Hb as [[Hin Hm]|Hb]; [|discriminate Hb].
      apply Hdot in Hin. apply birthday_re_sound in Hm.
      destruct Hm as (Y & M & D & HlY & HlM & HlD & HaY & HaM & HaD & Hs).
      destruct Hs as [-> | ->].
      * exists Y, M, D. repeat split; assumption.
      * exfalso. rewrite !all_chars_append, !andb_true_iff in Hin.
        destruct Hin as (_ & _ & _ & _ & _ & Hin).
        vm_compute in Hin. discriminate Hin.
    + intros l p Hl Hp. injection Hl as <-. apply filter_In in Hp.
      destruct Hp as [Hin Hm]. apply Hdot in Hin.
      apply phone_re_spec in Hm.
      destruct Hm as (t & Hlt & Hat & [-> | ->]); [auto|].
      exfalso. exact (dot_append_NL _ Hin).
  - unfold parse_input. rewrite F. intros H. injection H as _ <- <- <-.
    repeat split; intros; discriminate.
Qed.

Lemma parse_input_well_formed_witness :
  String.length "12345678901" = 11
  /\ all_chars is_decimal "12345678901" = true.
Proof.
  refine (proj2 (proj2 (@parse_input_well_formed
                          "change Mary 2020/03/10 12345678901"
                          (Some "change") (Some "Mary") (Some "2020/03/10")
                          (Some ["12345678901"]) _))
            ["12345678901"] "12345678901" eq_refl _).
  - vm_compute. reflexivity.
  - simpl. auto.
Defined.

(** ** [handle_d2b] for a birthday on the 29th of February *)

Open Scope Z_scope.

Lemma date_new_leap_day (y : Z) :
  1 <= y <= 9999 ->
  date_new y 2 29
  = if _is_leap y then Ok (Date y 2 29)
    else Raise (ValueError "day is out of range for month").
Proof.
  intros [H1 H2]. apply Z.leb_le in H1, H2.
  unfold date_new, _check_date_fields, MINYEAR, MAXYEAR, _days_in_month.
  rewrite H1, H2. destruct (_is_leap y); reflexivity.
Qed.

Lemma leap_year_below (y : Z) :
  _is_leap y = true -> 1 <= y <= 9999 -> 1 <= y + 1 <= 9999.
Proof.
  unfold _is_leap. intros H Hy. apply andb_true_iff in H as [H _].
  apply Z.eqb_eq in H. Z.div_mod_to_equations. lia.
Qed.

(** X18: For a birthday on the 29th of February the number of days is computed
    only in a leap year and up to that day, and is then at most 59; on every
    other day the computation raises [ValueError], the same in a year without
    that day and in a leap year once the day has passed. *)
Theorem days_remaining_leap_day (s : string) (y : Z) (today : date) :
  strptime_Ymd s = Ok (Date y 2 29) ->
  valid_date today ->
  days_remaining (Some s) today
  = (if _is_leap (year today)
        && negb (date_gt today (Date (year today) 2 29))
     then Ok (days_between (Date (year today) 2 29) today)
     else Raise (ValueError "day is out of range for month"))
  /\ (_is_leap (year today) = true ->
      date_gt today (Date (year today) 2 29) = false ->
      0 <= days_between (Date (year today) 2 29) today <= 59).
Proof.
  intros Hs Hv. apply check_date_fields_ok in Hv. destruct Hv as (Hy & Hm & Hd).
  split.
  - unfold days_remaining, strptime_val. rewrite Hs. cbn [rbind].
    unfold replace_year. cbn [month day year].
    rewrite date_new_leap_day by exact Hy.
    destruct (_is_leap (year today)) eqn:L; cbn [rbind andb]; [|reflexivity].
    destruct (date_gt today (Date (year today) 2 29)) eqn:G;
      cbn [negb rbind month day year]; [|reflexivity].
    rewrite date_new_leap_day by (now apply leap_year_below).
    now rewrite (leap_not_twice _ L).
  - intros L G.
    assert (Hg : ~ (date_gt today (Date (year today) 2 29) = true))
      by congruence.
    rewrite date_gt_spec in Hg. cbn [year month day] in Hg.
    unfold days_between, toordinal, _ymd2ord, _days_before_month.
    cbn [year month day]. rewrite L.
    unfold _days_in_month in Hd. rewrite L in Hd.
    assert (Hc : month today = 1 \/ month today = 2) by lia.
    destruct Hc as [E|E]; rewrite E in *; simpl in *; lia.
Qed.

Lemma days_remaining_leap_day_witness :
  days_remaining (Some "2020/02/29") (Date 2024 2 1) = Ok 28.
Proof.
  refine (proj1 (@days_remaining_leap_day "2020/02/29" 2020 (Date 2024 2 1)
                   _ _)).
  - vm_compute. reflexivity.
  - vm_compute. reflexivity.
Defined.

Close Scope Z_scope.

(** ** The handlers that raise on what the book holds *)

Lemma all_str_cases (l : list (option string)) :
  (In None l /\ all_str l = Raise TypeError)
  \/ (~ In None l /\ exists r, all_str l = Ok r).
Proof.
  induction l as [|[s|] l IH]; simpl.
  - right. split; [tauto | eauto].
  - destruct IH as [[H E]|[H [r E]]]; rewrite E; simpl.
    + left. auto.
    + right. split; [|eauto]. intros [H'|H']; [discriminate | auto].
  - left. auto.
Qed.

Lemma handle_show_phones_cases (contactname b : option string)
    (p : list string) (w : World) :
  ((exists r, dict_get contactname (address_book w) = Some r
              /\ In None (show_phones r))
   /\ fst (handle_show_phones contactname b p w) = Raise TypeError)
  \/ (~ (exists r, dict_get contactname (address_book w) = Some r
                   /\ In None (show_phones r))
      /\ fst (handle_show_phones contactname b p w) = Ok None).
Proof.
  unfold handle_show_phones, show_phones, bind, get_book, lift, print, write,
    ret.
  destruct (dict_get contactname (address_book w)) as [r|]; cbn [fst snd].
  - destruct (all_str_cases (map value (phones r))) as [[H E]|[H [l E]]];
      rewrite E; cbn [fst].
    + left. eauto.
    + right. split; [|reflexivity].
      intros [r' [Hr' Hin]]. injection Hr' as <-. tauto.
  - right. split; [|reflexivity]. intros [r' [Hr' _]]. discriminate.
Qed.

(** X19: [show phones] raises [TypeError] when the record of the name
    holds a phone whose value is [None], as a row with [None] in its list
    of phones gives; it returns when the name is not in the book, and when
    every phone of the record is a string. *)
Theorem handle_show_phones_raises (contactname b : option string)
    (p : list string) (w : World) :
  ((exists r, dict_get contactname (address_book w) = Some r
              /\ In None (show_phones r)) ->
   fst (handle_show_phones contactname b p w) = Raise TypeError)
  /\ (dict_get contactname (address_book w) = None ->
      fst (handle_show_phones contactname b p w) = Ok None)
  /\ (forall r,
        dict_get contactname (address_book w) = Some r ->
        Forall (fun v => exists s, v = Some s) (show_phones r) ->
        fst (handle_show_phones contactname b p w) = Ok None).
Proof.
  destruct (handle_show_phones_cases contactname b p w) as [[H E]|[H E]];
    rewrite E; split; [|split| |split]; try tauto.
  - intros Hn. destruct H as (r & Hr & _). congruence.
  - intros r Hr Hall. destruct H as (r' & Hr' & Hin).
    assert (r' = r) by congruence. subst r'.
    rewrite Forall_forall in Hall. destruct (Hall _ Hin) as [s Hs].
    discriminate Hs.
Qed.

Lemma handle_d2b_fst (name b : option string) (p : list string) (w : World) :
  fst (handle_d2b name b p w)
  = match dict_get name (address_book w) with
    | Some record =>
        match birthday record with
        | Some bd =>
            match days_remaining (value bd) (today w) with
            | Ok _ => Ok None
            | Raise e => Raise e
            end
        | None => Ok None
        end
    | None => Ok None
    end.
Proof.
  unfold handle_d2b, bind, when, print, write, ret, get_book, get_today, lift.
  destruct (negb (truthy name)); cbn [address_book today fst snd];
    (destruct (dict_get name (address_book w)) as [r|]; [|reflexivity]);
    (destruct (birthday r) as [bd|]; [|reflexivity]);
    cbn [address_book today fst snd];
    destruct (days_remaining (value bd) (today w)); reflexivity.
Qed.

(** X20: The check of the birthday in [add] is a message only: a birthday that
    [strptime] refuses is stored all the same, and from then on [days to
    birthday] for that name raises [ValueError]. *)
Theorem add_invalid_birthday_breaks_d2b (n b : string)
    (phones : list string) (w : World) (b' : option string)
    (p' : list string) :
  truthy (Some b) = true ->
  ~ accepted_date_text b ->
  exists msg,
    fst (handle_d2b (Some n) b' p'
           (snd (handle_add (Some n) (Some b) phones w)))
    = Raise (ValueError msg).
Proof.
  intros Tb Hb.
  destruct (handle_add_always_adds (Some n) (Some b) phones w)
    as (out & E & _).
  rewrite E. cbn [snd]. rewrite handle_d2b_fst. cbn [address_book today].
  unfold add_record. rewrite Record_init_name, dict_get_set_same.
  rewrite Record_init_stores, Tb. cbn [birthday value _value].
  unfold days_remaining, strptime_val.
  destruct (strptime_Ymd_cases b) as [[d Ed]|[msg Ed]].
  - exfalso. apply Hb. apply strptime_Ymd_spec. eauto.
  - rewrite Ed. cbn [rbind]. eauto.
Qed.

Lemma add_invalid_birthday_breaks_d2b_witness :
  exists msg,
    fst (handle_d2b (Some "John") None []
           (snd (handle_add (Some "John") (Some "2024/02/30") []
                   (mkWorld book_mary [] (Date 2025 3 11)))))
    = Raise (ValueError msg).
Proof.
  apply add_invalid_birthday_breaks_d2b.
  - reflexivity.
  - intros H. apply strptime_Ymd_spec in H. destruct H as [d H].
    vm_compute in H. discriminate H.
Defined.

(** ** The values that a turn stores *)

Lemma ki_keeps_book (I : AddressBook -> Prop) {A} (m : M A) :
  keeps_book m -> keeps_inv I m.
Proof. intros H w Hw. now rewrite H. Qed.

Lemma ki_bind (I : AddressBook -> Prop) {A B} (m : M A) (f : A -> M B) :
  keeps_inv I m -> (forall a, keeps_inv I (f a)) -> keeps_inv I (bind m f).
Proof.
  intros Hm Hf w Hw. unfold bind. specialize (Hm w Hw).
  destruct (m w) as [[a|e] w']; simpl in *.
  - now apply Hf.
  - exact Hm.
Qed.

Lemma well_valued_init (n b : option string) (ps : list string) :
  well_valued (Record_init n b (map Some ps)).
Proof.
  rewrite Record_init_stores. split; cbn [birthday phones].
  - intros f. destruct (truthy b) eqn:Tb; [|discriminate].
    intros H. injection H as <-. exact Tb.
  - rewrite map_map. apply Forall_forall. intros f Hf.
    apply in_map_iff in Hf. destruct Hf as (s & <- & _). now exists s.
Qed.

Lemma well_valued_updates (r : Record) (b : option string)
    (ps : list string) :
  well_valued r -> well_valued (supplied_updates r b ps).
Proof.
  intros [Hb Hp]. unfold supplied_updates.
  assert (H1 : well_valued
                 (if truthy b && birthday_passes b
                  then set_birthday r (Some (Birthday b)) else r)).
  { destruct (truthy b) eqn:Tb; cbn [andb]; [|now split].
    destruct (birthday_passes b); [|now split].
    split; cbn [set_birthday birthday phones]; [|exact Hp].
    intros f H. injection H as <-. exact Tb. }
  destruct (nonempty ps && phones_pass ps); [|exact H1].
  destruct H1 as [Hb1 _]. split; cbn [set_phones birthday phones].
  - exact Hb1.
  - apply Forall_forall. intros f Hf.
    apply in_map_iff in Hf. destruct Hf as (s & <- & _). now exists s.
Qed.

Lemma all_well_valued_set (book : AddressBook) (k : key) (r : Record) :
  all_well_valued book -> well_valued r ->
  all_well_valued (dict_set k r book).
Proof.
  unfold all_well_valued. rewrite !Forall_forall. intros H Hr e He.
  apply In_dict_set in He. destruct He as [He|[_ ->]]; auto.
Qed.

Lemma ki_handle_add n b p : keeps_inv all_well_valued (handle_add n b p).
Proof.
  intros w Hw. destruct (handle_add_always_adds n b p w) as (out & E & _).
  rewrite E. cbn [snd address_book]. unfold add_record.
  apply all_well_valued_set; [exact Hw | apply well_valued_init].
Qed.

Lemma ki_handle_change n b p : keeps_inv all_well_valued (handle_change n b p).
Proof.
  intros w Hw. destruct (handle_change_book n b p w) as (res & out & E).
  rewrite E. cbn [snd address_book].
  destruct (dict_get n (address_book w)) as [r|] eqn:G; [|exact Hw].
  apply all_well_valued_set; [exact Hw|]. apply well_valued_updates.
  apply dict_get_In in G. unfold all_well_valued in Hw.
  rewrite Forall_forall in Hw. exact (Hw _ G).
Qed.

Lemma ki_handle_delete n b p : keeps_inv all_well_valued (handle_delete n b p).
Proof.
  intros w Hw. rewrite handle_delete_run. cbn [snd emit address_book].
  unfold delete_record. destruct (dict_mem n (address_book w)); [|exact Hw].
  unfold all_well_valued in *. rewrite Forall_forall in *.
  intros e He. apply Hw. eapply In_dict_del. exact He.
Qed.

(** X21: Whatever the line, a turn of the loop stores no birthday that is
    empty or [None] and no phone that is not a string: in a book that has this
    property every record still has it after the turn. *)
Theorem turn_keeps_values (line : string) (w : World) :
  all_well_valued (address_book w) ->
  all_well_valued (address_book (snd (turn line w))).
Proof.
  revert w. change (keeps_inv all_well_valued (turn line)). unfold turn.
  destruct (parse_input line (map fst commands_table)) as [[[c n] b] ph].
  apply ki_bind; [apply ki_keeps_book; auto with book|]. intros _.
  destruct (commands_get c) as [h|] eqn:H;
    [|apply ki_keeps_book; auto with book].
  apply ki_bind; [|intros; apply ki_keeps_book; through].
  handler_cases H.
  - apply ki_keeps_book, kb_handle_help.
  - apply ki_keeps_book, kb_handle_hello.
  - apply ki_keeps_book, kb_handle_show_all.
  - apply ki_keeps_book, kb_handle_show_phones.
  - apply ki_keeps_book, kb_handle_show_bday.
  - apply ki_keeps_book, kb_handle_d2b.
  - apply ki_handle_add.
  - apply ki_handle_change.
  - apply ki_handle_delete.
  - apply ki_keeps_book, kb_handle_search_name.
Qed.

Lemma turn_keeps_values_witness :
  all_well_valued
    (address_book
       (snd (turn "change Mary 2021/04/05"
               (mkWorld book_mary [] (Date 2025 3 11))))).
Proof.
  apply turn_keeps_values. constructor; [|constructor]. split.
  - intros b H. vm_compute in H. injection H as <-. reflexivity.
  - constructor; [|constructor]. eexists. reflexivity.
Defined.
